(** * Casanovo output mapper: a shallow embedding of
      [algorithms/casanovo/output_mapper.py] and its properties.

    Python [str] values are modelled as lists of characters whose code
    points lie in the 8-bit range; Python [float] values as IEEE-754
    binary64 numbers ([spec_float] at precision 53); Python exceptions as
    the [Raise] branch of a small error monad. *)

From Stdlib Require Import Ascii String ZArith NArith Lia Bool List.
From Stdlib Require Import DecimalString DecimalPos.
From Stdlib Require Floats.SpecFloat.
From Equations Require Import Equations.
Import ListNotations.

Set Implicit Arguments.

(** ** Exceptions and the error monad *)

Inductive exn : Type :=
| ValueError
| IndexError
| KeyError
| AttributeError.

Inductive result (A : Type) : Type :=
| Ok (a : A)
| Raise (e : exn).

Arguments Ok {A} a.
Arguments Raise {A} e.

Definition bind {A B : Type} (r : result A) (k : A -> result B) : result B :=
  match r with
  | Ok a => k a
  | Raise e => Raise e
  end.

Notation "x <- r ;; k" := (bind r (fun x => k))
  (at level 61, r at next level, right associativity).

Fixpoint mapM {A B : Type} (f : A -> result B) (l : list A) : result (list B) :=
  match l with
  | [] => Ok []
  | a :: l' => b <- f a ;; bs <- mapM f l' ;; Ok (b :: bs)
  end.

(** ** Strings *)

Definition str : Type := list ascii.

Definition s2l (s : string) : str := list_ascii_of_string s.
Definition l2s (l : str) : string := string_of_list_ascii l.

Definition code (c : ascii) : N := N_of_ascii c.

Definition in_range (lo hi : N) (c : ascii) : bool :=
  (lo <=? code c)%N && (code c <=? hi)%N.

(** [0-9], [A-Z], [a-z] *)
Definition is_digit : ascii -> bool := in_range 48 57.
Definition is_upper : ascii -> bool := in_range 65 90.
Definition is_lower : ascii -> bool := in_range 97 122.

Definition ch_comma : ascii := ","%char.
Definition ch_dot : ascii := "."%char.
Definition ch_plus : ascii := "+"%char.
Definition ch_minus : ascii := "-"%char.
Definition ch_lbracket : ascii := "["%char.
Definition ch_rbracket : ascii := "]"%char.
Definition ch_eq : ascii := "="%char.
Definition ch_underscore : ascii := "_"%char.

(** Longest prefix whose characters satisfy [p], and the remainder. *)
Fixpoint span (p : ascii -> bool) (s : str) : str * str :=
  match s with
  | [] => ([], [])
  | c :: s' =>
      if p c then let (a, b) := span p s' in (c :: a, b) else ([], s)
  end.

(** [strip_prefix p s] is [Some r] exactly when [s = p ++ r]. *)
Fixpoint strip_prefix (p s : str) : option str :=
  match p with
  | [] => Some s
  | a :: p' =>
      match s with
      | [] => None
      | b :: s' => if Ascii.eqb a b then strip_prefix p' s' else None
      end
  end.

Lemma strip_prefix_length p s r :
  strip_prefix p s = Some r -> length s = length p + length r.
Proof.
  revert s; induction p as [|a p IH]; intros s; simpl.
  - intros [= <-]; reflexivity.
  - destruct s as [|b s]; [discriminate|].
    destruct (Ascii.eqb a b); [|discriminate].
    intros H; apply IH in H; simpl; lia.
Qed.

Definition inspect {A : Type} (a : A) : {b : A | a = b} := exist _ a eq_refl.

(** [str.replace(old, new)]: every non-overlapping occurrence of [old],
    found scanning left to right, is replaced by [new].  With an empty
    [old], Python inserts [new] around every character. *)
Equations? replace (old new s : str) : str by wf (length s) lt :=
  replace [] new s := new ++ flat_map (fun c => c :: new) s;
  replace (o :: old') new [] := [];
  replace (o :: old') new (c :: s') with inspect (strip_prefix (o :: old') (c :: s')) => {
    | exist _ (Some rest) Heq := new ++ replace (o :: old') new rest;
    | exist _ None Heq := c :: replace (o :: old') new s' }.
Proof.
  change (strip_prefix (o :: old') (c :: s') = Some rest) in Heq.
  apply strip_prefix_length in Heq. simpl in *. lia.
Qed.

(** [str.split(sep)] with a one-character separator. *)
Fixpoint split_on (sep : ascii) (s : str) : list str :=
  match s with
  | [] => [[]]
  | c :: s' =>
      if Ascii.eqb c sep then [] :: split_on sep s'
      else match split_on sep s' with
           | [] => [[c]]
           | w :: ws => (c :: w) :: ws
           end
  end.

(** [sep.join(parts)] *)
Fixpoint join (sep : str) (parts : list str) : str :=
  match parts with
  | [] => []
  | [w] => w
  | w :: ws => w ++ sep ++ join sep ws
  end.

(** ** Class constants *)

Definition REPLACEMENTS : list (str * str) :=
  [ (s2l "C+57.021", s2l "C") ].

(** The character class [[0-9.+-]] of [N_TERM_MOD_PATTERN]. *)
Definition in_ptm_class (c : ascii) : bool :=
  is_digit c || Ascii.eqb c ch_dot || Ascii.eqb c ch_plus || Ascii.eqb c ch_minus.

(** A match object of [N_TERM_MOD_PATTERN = ^([0-9.+-]+)([A-Z])]:
    group 1, group 2 and the unmatched remainder of the string. *)
Record n_term_match : Type := {
  group1 : str;
  group2 : ascii;
  after_match : str
}.

(** [re.search(N_TERM_MOD_PATTERN, sequence)].  The pattern is anchored at
    the start of the string.  The greedy [+] takes the longest run of class
    characters; giving characters back cannot help, since the character
    after a shorter run is a class character and so not in [[A-Z]]. *)
Definition search_n_term (sequence : str) : option n_term_match :=
  match span in_ptm_class sequence with
  | (p :: ptm, aa :: rest) =>
      if is_upper aa
      then Some {| group1 := p :: ptm; group2 := aa; after_match := rest |}
      else None
  | _ => None
  end.

(** [_transform_match_n_term_mod] *)
Definition _transform_match_n_term_mod (m : n_term_match) : str :=
  let ptm := group1 m in
  let aa := group2 m in
  aa :: ptm.

(** [re.sub(N_TERM_MOD_PATTERN, _transform_match_n_term_mod, sequence)]:
    the anchor lets the pattern match at position 0 only, so at most one
    substitution takes place. *)
Definition sub_n_term (sequence : str) : str :=
  match search_n_term sequence with
  | Some m => _transform_match_n_term_mod m ++ after_match m
  | None => sequence
  end.

(** ** Integers: [int(str)] and [str(int)] *)

(** Characters that [int] and [float] skip around a literal, among the
    code points below 256: the C white space, and the two other Unicode
    spaces of that range (NEL and NBSP), which CPython first maps to a
    blank. *)
Definition is_space (c : ascii) : bool :=
  in_range 9 13 c || (code c =? 32)%N
  || (code c =? 133)%N || (code c =? 160)%N.

Fixpoint lstrip (s : str) : str :=
  match s with
  | c :: s' => if is_space c then lstrip s' else s
  | [] => []
  end.

Definition strip (s : str) : str := rev (lstrip (rev (lstrip s))).

Definition digit_val (c : ascii) : Z := (Z.of_N (code c) - 48)%Z.

Definition Z_of_digits (ds : str) : Z :=
  fold_left (fun acc c => 10 * acc + digit_val c)%Z ds 0%Z.

(** Removal of the underscores of a numeric literal: an underscore is
    accepted only between two digits.  [prev] is the previous character. *)
Fixpoint remove_underscores (prev : option ascii) (s : str) : option str :=
  match s with
  | [] =>
      match prev with
      | Some p => if Ascii.eqb p ch_underscore then None else Some []
      | None => Some []
      end
  | c :: s' =>
      if Ascii.eqb c ch_underscore then
        match prev with
        | Some p => if is_digit p then remove_underscores (Some c) s' else None
        | None => None
        end
      else
        let bad :=
          match prev with
          | Some p => Ascii.eqb p ch_underscore && negb (is_digit c)
          | None => false
          end in
        if bad then None
        else option_map (cons c) (remove_underscores (Some c) s')
  end.

(** Default of [sys.get_int_max_str_digits()]. *)
Definition MAX_STR_DIGITS : nat := 4300.

(** [int(s)] in base 10. *)
Definition py_int (s : str) : result Z :=
  let s := strip s in
  let (neg, body) :=
    match s with
    | c :: s' =>
        if Ascii.eqb c ch_minus then (true, s')
        else if Ascii.eqb c ch_plus then (false, s')
        else (false, s)
    | [] => (false, [])
    end in
  match body with
  | [] => Raise ValueError
  | c :: _ =>
      if negb (is_digit c) then Raise ValueError
      else
        match remove_underscores None body with
        | None => Raise ValueError
        | Some ds =>
            if negb (forallb is_digit ds) then Raise ValueError
            else if MAX_STR_DIGITS <? length ds then Raise ValueError
            else Ok (if neg then - Z_of_digits ds else Z_of_digits ds)%Z
        end
  end.

(** [str(n)] for an integer [n]. *)
Definition str_of_Z (n : Z) : str :=
  s2l (NilZero.string_of_int (Z.to_int n)).

(** ** The scan index *)

(** A match of [FILE_IDX_PATTERN = \[(\d+)\]] at the start of [s]:
    [group(0)] and the text after the match.  A shorter run of digits
    cannot be followed by the closing bracket, so the longest run is the
    only candidate. *)
Definition match_file_idx (s : str) : option (str * str) :=
  match s with
  | c :: s1 =>
      if Ascii.eqb c ch_lbracket then
        match span is_digit s1 with
        | (d :: ds, c2 :: rest) =>
            if Ascii.eqb c2 ch_rbracket
            then Some (ch_lbracket :: (d :: ds) ++ [ch_rbracket], rest)
            else None
        | _ => None
        end
      else None
  | [] => None
  end.

(** The slice [s[1:-1]]. *)
Definition slice_1_m1 (s : str) : str := removelast (tl s).

(** [_transform_match_file_idx], on [match.group(0)]. *)
Definition _transform_match_file_idx (group0 : str) : result str :=
  file_idx <- py_int (slice_1_m1 group0) ;;
  Ok (s2l "F" ++ str_of_Z (file_idx - 1)%Z).

Lemma span_length p s a b : span p s = (a, b) -> length s = length a + length b.
Proof.
  revert a b; induction s as [|c s IH]; simpl; intros a b.
  - intros [= <- <-]; reflexivity.
  - destruct (p c).
    + destruct (span p s) as [a' b'] eqn:E. intros [= <- <-].
      simpl. rewrite (IH a' b' eq_refl). reflexivity.
    + intros [= <- <-]; reflexivity.
Qed.

Lemma match_file_idx_length s g rest :
  match_file_idx s = Some (g, rest) -> length rest < length s.
Proof.
  destruct s as [|c s1]; simpl; [discriminate|].
  destruct (Ascii.eqb c ch_lbracket); [|discriminate].
  destruct (span is_digit s1) as [ds r] eqn:E.
  apply span_length in E.
  destruct ds as [|d ds]; [discriminate|].
  destruct r as [|c2 r]; [discriminate|].
  destruct (Ascii.eqb c2 ch_rbracket); [|discriminate].
  intros [= <- <-]. simpl in *. lia.
Qed.

(** [re.sub(FILE_IDX_PATTERN, _transform_match_file_idx, s)]: every
    match, scanning left to right, is replaced by the callback's result. *)
Equations? sub_file_idx (s : str) : result str by wf (length s) lt :=
  sub_file_idx [] := Ok [];
  sub_file_idx (c :: s') with inspect (match_file_idx (c :: s')) => {
    | exist _ (Some (g0, rest)) Heq :=
        r <- _transform_match_file_idx g0 ;;
        t <- sub_file_idx rest ;;
        Ok (r ++ t);
    | exist _ None Heq := t <- sub_file_idx s' ;; Ok (c :: t) }.
Proof.
  change (match_file_idx (c :: s') = Some (g0, rest)) in Heq.
  apply match_file_idx_length in Heq. exact Heq.
Qed.

(** The class [[a-z=_]]. *)
Definition in_strip_class (c : ascii) : bool :=
  is_lower c || Ascii.eqb c ch_eq || Ascii.eqb c ch_underscore.

(** [format_scan_index] *)
Definition format_scan_index (scan_index : str) : result str :=
  let scan_index := filter (fun c => negb (in_strip_class c)) scan_index in
  sub_file_idx scan_index.

(** ** Floats: [float(str)], arithmetic and [str(float)] *)

Module PyFloat.
Import SpecFloat.

Definition prec : Z := 53.
Definition emax : Z := 1024.

Definition float : Type := spec_float.

Definition add : float -> float -> float := SFadd prec emax.
Definition div : float -> float -> float := SFdiv prec emax.

(** Conversion of a (small) integer operand, as in [x / 2]. *)
Definition of_Z (n : Z) : float := binary_normalize prec emax n 0 false.

(** The binary64 number nearest to [(-1)^neg * m * 10^e] (ties to even),
    for [m >= 0]; overflow gives an infinity, as [float] does.  For a
    negative exponent the quotient is computed with more than 64
    significant bits and a sticky last bit before the final rounding. *)
Definition round_decimal (neg : bool) (m e : Z) : float :=
  let sgn (z : Z) := if neg then (- z)%Z else z in
  if (m =? 0)%Z then S754_zero neg
  else if (0 <=? e)%Z then
    binary_normalize prec emax (sgn (m * 10 ^ e)%Z) 0 neg
  else
    let d := (10 ^ (- e))%Z in
    let k := (Z.log2 d + 66)%Z in
    let n := (m * 2 ^ k)%Z in
    let q := (n / d)%Z in
    let sticky := if (n mod d =? 0)%Z then 0%Z else 1%Z in
    binary_normalize prec emax (sgn (2 * q + sticky)%Z) (- k - 1) neg.

Definition lower (c : ascii) : ascii :=
  if is_upper c then ascii_of_N (code c + 32) else c.

(** [_Py_parse_inf_or_nan], required to consume the whole literal. *)
Definition parse_inf_or_nan (s : str) : option float :=
  let (neg, body) :=
    match s with
    | c :: s' =>
        if Ascii.eqb c ch_minus then (true, s')
        else if Ascii.eqb c ch_plus then (false, s')
        else (false, s)
    | [] => (false, [])
    end in
  let w := l2s (map lower body) in
  if (String.eqb w "inf" || String.eqb w "infinity")%string
  then Some (S754_infinity neg)
  else if String.eqb w "nan" then Some S754_nan
  else None.

Definition is_e (c : ascii) : bool :=
  Ascii.eqb c "e"%char || Ascii.eqb c "E"%char.

(** The exponent part of a decimal literal: empty, or [e], an optional
    sign and at least one digit. *)
Definition parse_exponent (s : str) : option Z :=
  match s with
  | [] => Some 0%Z
  | c :: s1 =>
      if is_e c then
        let (neg, ds) :=
          match s1 with
          | c1 :: s2 =>
              if Ascii.eqb c1 ch_minus then (true, s2)
              else if Ascii.eqb c1 ch_plus then (false, s2)
              else (false, s1)
          | [] => (false, [])
          end in
        match ds with
        | [] => None
        | _ :: _ =>
            if forallb is_digit ds
            then Some (if neg then - Z_of_digits ds else Z_of_digits ds)%Z
            else None
        end
      else None
  end.

(** The decimal literals of [strtod]: an optional sign, digits with an
    optional point, at least one digit in all, an optional exponent. *)
Definition parse_decimal (s : str) : option float :=
  let (neg, body) :=
    match s with
    | c :: s' =>
        if Ascii.eqb c ch_minus then (true, s')
        else if Ascii.eqb c ch_plus then (false, s')
        else (false, s)
    | [] => (false, [])
    end in
  let (ip, r1) := span is_digit body in
  let (fp, r2) :=
    match r1 with
    | c :: r =>
        if Ascii.eqb c ch_dot then span is_digit r else ([], r1)
    | [] => ([], [])
    end in
  match ip ++ fp with
  | [] => None
  | _ :: _ =>
      match parse_exponent r2 with
      | Some ex =>
          Some (round_decimal neg (Z_of_digits (ip ++ fp))
                  (ex - Z.of_nat (length fp)))
      | None => None
      end
  end.

(** [float(s)] *)
Definition of_str (s : str) : result float :=
  match strip s with
  | [] => Raise ValueError
  | c :: t =>
      match remove_underscores None (c :: t) with
      | None => Raise ValueError
      | Some u =>
          match parse_inf_or_nan u with
          | Some x => Ok x
          | None =>
              match parse_decimal u with
              | Some x => Ok x
              | None => Raise ValueError
              end
          end
      end
  end.

Definition eqb (x y : float) : bool :=
  match x, y with
  | S754_zero a, S754_zero b => Bool.eqb a b
  | S754_infinity a, S754_infinity b => Bool.eqb a b
  | S754_nan, S754_nan => true
  | S754_finite a m e, S754_finite b n f =>
      Bool.eqb a b && Pos.eqb m n && Z.eqb e f
  | _, _ => false
  end.

(** *** [repr]: the shortest decimal string that reads back as the float *)

(** Number of decimal digits of [n >= 0]. *)
Definition numdigits (n : Z) : Z := Z.of_nat (length (str_of_Z n)).

(** The float [m * 2^e] as a fraction. *)
Definition as_fraction (m : positive) (e : Z) : Z * Z :=
  if (0 <=? e)%Z then (Z.pos m * 2 ^ e, 1)%Z else (Z.pos m, 2 ^ (- e))%Z.

(** The [k] with [10^(k-1) <= num/den < 10^k]. *)
Definition decimal_point (num den : Z) : Z :=
  if (den <=? num)%Z then numdigits (num / den)
  else (1 - numdigits ((den - 1) / num))%Z.

Fixpoint rstrip_zeros_rev (r : str) : str :=
  match r with
  | c :: r' => if Ascii.eqb c "0"%char then rstrip_zeros_rev r' else r
  | [] => []
  end.

Definition rstrip_zeros (s : str) : str := rev (rstrip_zeros_rev (rev s)).

(** The digits of a float with [n] significant decimal digits, if one of
    the two [n]-digit decimals around [x = m * 2^e] reads back as [x];
    the nearer one when both do, the even one when they are equally near.
    The result is the digit string without trailing zeros and the
    position of the decimal point relative to its start. *)
Definition digits_at (m : positive) (e : Z) (n : Z) (checked : bool)
  : option (str * Z) :=
  let x := S754_finite false m e in
  let (num, den) := as_fraction m e in
  let k := decimal_point num den in
  let p := (n - k)%Z in
  let (a, b) :=
    if (0 <=? p)%Z then (num * 10 ^ p, den)%Z else (num, den * 10 ^ (- p))%Z in
  let lo := (a / b)%Z in
  let r := (a mod b)%Z in
  let hi := (lo + 1)%Z in
  let ok c := negb checked || eqb (round_decimal false c (k - n)) x in
  let pick c := Some (rstrip_zeros (str_of_Z c), (k + (numdigits c - n))%Z) in
  match ok lo, ok hi with
  | true, true =>
      if (2 * r <? b)%Z then pick lo
      else if (b <? 2 * r)%Z then pick hi
      else if Z.even lo then pick lo else pick hi
  | true, false => pick lo
  | false, true => pick hi
  | false, false => None
  end.

(** Try 1, 2, ... significant digits; 17 always suffice for binary64. *)
Fixpoint shortest_digits (m : positive) (e : Z) (n : Z) (fuel : nat)
  : str * Z :=
  match fuel with
  | O =>
      match digits_at m e n false with
      | Some d => d
      | None => ([], 0%Z)
      end
  | S fuel' =>
      match digits_at m e n true with
      | Some d => d
      | None => shortest_digits m e (n + 1) fuel'
      end
  end.

Definition zeros (n : Z) : str := repeat "0"%char (Z.to_nat n).

(** The exponent as printed by ["%+.02d"]. *)
Definition format_exponent (ex : Z) : str :=
  let a := str_of_Z (Z.abs ex) in
  (if (ex <? 0)%Z then ch_minus else ch_plus)
    :: (if (length a <? 2)%nat then zeros 1 ++ a else a).

(** Layout of the digits [ds] with decimal point position [k], as
    [format_float_short] does for the [repr] format. *)
Definition layout (ds : str) (k : Z) : str :=
  let n := Z.of_nat (length ds) in
  if ((k <=? -4) || (16 <? k))%Z then
    match ds with
    | [] => []
    | d :: rest =>
        d :: (match rest with [] => [] | _ :: _ => ch_dot :: rest end)
          ++ "e"%char :: format_exponent (k - 1)
    end
  else if (k <=? 0)%Z then s2l "0." ++ zeros (- k) ++ ds
  else if (k <? n)%Z then
    firstn (Z.to_nat k) ds ++ ch_dot :: skipn (Z.to_nat k) ds
  else ds ++ zeros (k - n) ++ s2l ".0".

Definition sign_str (neg : bool) : str := if neg then [ch_minus] else [].

(** [str(x)], which is [repr(x)] for a float. *)
Definition to_str (x : float) : str :=
  match x with
  | S754_zero s => sign_str s ++ s2l "0.0"
  | S754_infinity s => sign_str s ++ s2l "inf"
  | S754_nan => s2l "nan"
  | S754_finite s m e =>
      let (ds, k) := shortest_digits m e 1 16 in
      sign_str s ++ layout ds k
  end.

End PyFloat.

(** ** Lists: indexing and item assignment *)

(** [l[i]] for a non-negative index. *)
Definition getitem {A : Type} (l : list A) (i : nat) : result A :=
  match nth_error l i with
  | Some a => Ok a
  | None => Raise IndexError
  end.

(** [l[i] = a] for a non-negative index. *)
Definition setitem {A : Type} (l : list A) (i : nat) (a : A) : result (list A) :=
  if i <? length l then Ok (firstn i l ++ a :: skipn (S i) l)
  else Raise IndexError.

(** ** The sequence and its scores *)

(** [_parse_scores] *)
Definition _parse_scores (scores : str) : result (list PyFloat.float) :=
  let scores := split_on ch_comma scores in
  mapM PyFloat.of_str scores.

(** [_format_scores] *)
Definition _format_scores (scores : list PyFloat.float) : str :=
  join [ch_comma] (map PyFloat.to_str scores).

(** The loop over [REPLACEMENTS]. *)
Definition apply_replacements (sequence : str) : str :=
  fold_left (fun s repl_args => replace (fst repl_args) (snd repl_args) s)
    REPLACEMENTS sequence.

(** [format_sequence_and_scores] *)
Definition format_sequence_and_scores (sequence aa_scores : str)
  : result (str * str) :=
  let sequence := apply_replacements sequence in
  match search_n_term sequence with
  | Some _ =>
      let sequence := sub_n_term sequence in
      aa_scores <- _parse_scores aa_scores ;;
      x0 <- getitem aa_scores 0 ;;
      x1 <- getitem aa_scores 1 ;;
      aa_scores <-
        setitem aa_scores 1 (PyFloat.div (PyFloat.add x0 x1) (PyFloat.of_Z 2)) ;;
      let aa_scores := skipn 1 aa_scores in
      let aa_scores := _format_scores aa_scores in
      Ok (sequence, aa_scores)
  | None => Ok (sequence, aa_scores)
  end.

(** ** The table *)

(** A data frame, column by column: the column names in order, each with
    its cells. *)
Definition DataFrame : Type := list (string * list str).

Definition has_column (name : string) (df : DataFrame) : bool :=
  existsb (fun col => String.eqb (fst col) name) df.

(** [df[name]] *)
Fixpoint get_column (name : string) (df : DataFrame) : result (list str) :=
  match df with
  | [] => Raise KeyError
  | (n, cells) :: df' =>
      if String.eqb n name then Ok cells else get_column name df'
  end.

(** [df[name] = cells]: an existing column is overwritten in place, a new
    one is appended. *)
Fixpoint set_column (name : string) (cells : list str) (df : DataFrame)
  : DataFrame :=
  match df with
  | [] => [(name, cells)]
  | (n, old) :: df' =>
      if String.eqb n name then (n, cells) :: df'
      else (n, old) :: set_column name cells df'
  end.

(** The attributes that the class body of [OutputMapper] defines. *)
Definition OutputMapper_attributes : list string :=
  [ "REPLACEMENTS"; "N_TERM_MOD_PATTERN"; "FILE_IDX_PATTERN";
    "_transform_match_n_term_mod"; "_transform_match_file_idx";
    "_parse_scores"; "_format_scores"; "format_scan_index";
    "format_sequence_and_scores"; "format_output" ]%string.

(** [self.<name>]: the lookup of an attribute the class does not define
    raises. *)
Definition self_getattr (name : string) : result unit :=
  if existsb (String.eqb name) OutputMapper_attributes then Ok tt
  else Raise AttributeError.

(** [format_output].  In the branch without a score column the argument
    [self.format_sequence] is evaluated before [apply] is called.  The
    class defines no such attribute, so what [apply] would do with it is
    never reached and the table is passed on as it is. *)
Definition format_output (output_data : DataFrame) : result DataFrame :=
  output_data <-
    (if has_column "aa_scores" output_data then
       sequences <- get_column "sequence" output_data ;;
       scores <- get_column "aa_scores" output_data ;;
       rows <- mapM (fun row => format_sequence_and_scores (fst row) (snd row))
                 (combine sequences scores) ;;
       Ok (set_column "aa_scores" (map snd rows)
             (set_column "sequence" (map fst rows) output_data))
     else
       _ <- self_getattr "format_sequence" ;;
       Ok output_data) ;;
  scan_indices <- get_column "scan_indices" output_data ;;
  scan_indices <- mapM format_scan_index scan_indices ;;
  Ok (set_column "scan_indices" scan_indices output_data).

(** ** Tokens *)

Definition starts_upper (s : str) : bool :=
  match s with
  | c :: _ => is_upper c
  | [] => false
  end.

(** Modelled from the spec: the token list of a sequence string, which the
    source never builds.  A token is a residue symbol (an uppercase letter)
    together with the marker characters that follow it; characters before
    the first residue form a token of their own, the N-terminal
    modification marker. *)
Fixpoint tokenize (s : str) : list str :=
  match s with
  | [] => []
  | c :: s' =>
      match tokenize s' with
      | [] => [[c]]
      | t :: ts => if starts_upper t then [c] :: t :: ts else (c :: t) :: ts
      end
  end.

(** ** Notions used in the statements *)

(** [p in s] *)
Fixpoint contains (p s : str) : bool :=
  match strip_prefix p s with
  | Some _ => true
  | None =>
      match s with
      | [] => false
      | _ :: s' => contains p s'
      end
  end.

(** The residue and the mass marker of the one entry of [REPLACEMENTS]. *)
Definition residue_C : ascii := "C"%char.
Definition mass_marker : str := s2l "+57.021".

(** [s] is empty or begins with a character outside [p]. *)
Definition stops (p : ascii -> bool) (s : str) : Prop :=
  match s with
  | [] => True
  | c :: _ => p c = false
  end.

(** Number of residue symbols. *)
Definition count_upper (s : str) : nat := length (filter is_upper s).

(** 1 when the string begins before its first residue, else 0. *)
Definition leading_marker (s : str) : nat :=
  match s with
  | [] => 0
  | c :: _ => if is_upper c then 0 else 1
  end.

Definition comma_free (s : str) : Prop := Forall (fun c => c <> ch_comma) s.

(** The characters that [str(float)] and [str(int)] can print. *)
Definition number_char (c : ascii) : Prop :=
  is_digit c = true \/ In c (s2l "-+.einfa").

Definition number_str (s : str) : Prop := Forall number_char s.

(** [(x0 + x1) / 2] *)
Definition mean2 (x0 x1 : PyFloat.float) : PyFloat.float :=
  PyFloat.div (PyFloat.add x0 x1) (PyFloat.of_Z 2).

Definition bracket_free (s : str) : Prop := ~ In ch_lbracket s.

(** The first substitution of [format_scan_index]. *)
Definition strip_markers (s : str) : str :=
  filter (fun c => negb (in_strip_class c)) s.

(** The characters that [str(int)] can print. *)
Definition int_char (c : ascii) : Prop := is_digit c = true \/ c = ch_minus.

(** A non-empty run of decimal digits that [int] accepts. *)
Definition digit_run (ds : str) : Prop :=
  ds <> [] /\ forallb is_digit ds = true /\ length ds <= MAX_STR_DIGITS.

(** No lowercase letter, [=] or [_]. *)
Definition marker_free (s : str) : Prop :=
  Forall (fun c => in_strip_class c = false) s.

(** Some position of [s] starts a match of [FILE_IDX_PATTERN]. *)
Fixpoint has_file_idx (s : str) : bool :=
  match s with
  | [] => false
  | _ :: s' =>
      match match_file_idx s with
      | Some _ => true
      | None => has_file_idx s'
      end
  end.

(** [str(float(s))] *)
Definition reprint (s : string) : result string :=
  x <- PyFloat.of_str (s2l s) ;; Ok (l2s (PyFloat.to_str x)).

(** * Properties *)

(** Membership in a literal string, refuted character by character. *)
Ltac not_in_literal H :=
  simpl in H; repeat (destruct H as [H|H]; [discriminate|]); exact H.

(** ** Prefixes, spans and occurrences *)

Lemma strip_prefix_spec p s r : strip_prefix p s = Some r <-> s = p ++ r.
Proof.
  revert s; induction p as [|a p IH]; intros s; simpl.
  - split; [intros [= ->]; reflexivity | intros ->; reflexivity].
  - destruct s as [|b s]; [split; discriminate|].
    destruct (Ascii.eqb_spec a b) as [->|Hne].
    + rewrite IH. split; [intros ->; reflexivity | intros [= ->]; reflexivity].
    + split; [discriminate | intros [= -> _]; contradiction].
Qed.

Lemma strip_prefix_app p r : strip_prefix p (p ++ r) = Some r.
Proof. apply strip_prefix_spec; reflexivity. Qed.

Lemma replace_hit old new s rest :
  old <> [] -> strip_prefix old s = Some rest ->
  replace old new s = new ++ replace old new rest.
Proof.
  intros Hold H. funelim (replace old new s).
  - contradiction.
  - discriminate.
  - congruence.
  - congruence.
Qed.

Lemma replace_miss old new c s :
  old <> [] -> strip_prefix old (c :: s) = None ->
  replace old new (c :: s) = c :: replace old new s.
Proof.
  intros Hold H. funelim (replace old new (c :: s)).
  - contradiction.
  - congruence.
  - reflexivity.
Qed.

Lemma replace_empty old new : old <> [] -> replace old new [] = [].
Proof. destruct old; [contradiction|]. intros _. now simp replace. Qed.

(** Induction along the scan that [replace] performs. *)
Lemma replace_scan_ind (old new : str) (P : str -> str -> Prop) :
  old <> [] ->
  P [] [] ->
  (forall s rest, strip_prefix old s = Some rest ->
     P rest (replace old new rest) -> P s (new ++ replace old new rest)) ->
  (forall c s, strip_prefix old (c :: s) = None ->
     P s (replace old new s) -> P (c :: s) (c :: replace old new s)) ->
  forall s, P s (replace old new s).
Proof.
  intros Hold Hnil Hhit Hmiss s.
  remember (length s) as n eqn:Hn. revert s Hn.
  induction n as [n IH] using lt_wf_ind. intros s Hn.
  destruct s as [|c s].
  - rewrite replace_empty by assumption. exact Hnil.
  - destruct (strip_prefix old (c :: s)) as [rest|] eqn:E.
    + rewrite (@replace_hit old new _ _ Hold E). apply Hhit; [exact E|].
      apply (IH (length rest)); [|reflexivity].
      apply strip_prefix_length in E. destruct old; [contradiction|].
      simpl in *. lia.
    + rewrite (@replace_miss old new _ _ Hold E). apply Hmiss; [exact E|].
      apply (IH (length s)); [simpl in Hn; lia | reflexivity].
Qed.

Lemma contains_cons p c s :
  contains p (c :: s) =
  match strip_prefix p (c :: s) with Some _ => true | None => contains p s end.
Proof. reflexivity. Qed.

Lemma contains_spec p s :
  contains p s = true <-> exists a b, s = a ++ p ++ b.
Proof.
  induction s as [|c s IH].
  - simpl. destruct (strip_prefix p []) as [r|] eqn:E.
    + split; [intros _|reflexivity].
      apply strip_prefix_spec in E. exists [], r. exact E.
    + split; [discriminate|]. intros (a & b & H).
      destruct a; [|discriminate]. simpl in H.
      apply strip_prefix_spec in H. congruence.
  - rewrite contains_cons. destruct (strip_prefix p (c :: s)) as [r|] eqn:E.
    + split; [intros _|reflexivity].
      apply strip_prefix_spec in E. exists [], r. exact E.
    + rewrite IH. split.
      * intros (a & b & ->). exists (c :: a), b. reflexivity.
      * intros (a & b & H). destruct a as [|c' a].
        -- simpl in H. apply strip_prefix_spec in H. congruence.
        -- injection H as -> ->. exists a, b. reflexivity.
Qed.

(** A string without an occurrence of [old] is left as it is. *)
Lemma replace_absent old new s :
  old <> [] -> contains old s = false -> replace old new s = s.
Proof.
  intros Hold. pattern s, (replace old new s).
  apply replace_scan_ind; try assumption.
  - reflexivity.
  - intros s0 rest E _ H. destruct s0; simpl in H; rewrite E in H; discriminate.
  - intros c s0 E IH H. rewrite contains_cons, E in H. rewrite IH by exact H.
    reflexivity.
Qed.

(** ** Replacements that keep the first character

    The one entry of [REPLACEMENTS] rewrites [h :: suf] to [h], where
    [h] (the residue) does not occur in [suf] (its mass marker). *)

Section HeadKeeping.

Variable h : ascii.
Variable suf : str.
Hypothesis h_not_in_suf : ~ In h suf.

Let old : str := h :: suf.
Let R : str -> str := replace old [h].

Local Lemma old_nonempty : old <> [].
Proof. discriminate. Qed.

Lemma keep_other c s : c <> h -> R (c :: s) = c :: R s.
Proof.
  intros Hc. apply replace_miss; [exact old_nonempty|].
  unfold old. simpl. destruct (Ascii.eqb_spec h c); [congruence|reflexivity].
Qed.

Lemma keep_head s : exists t, R (h :: s) = h :: t.
Proof.
  destruct (strip_prefix old (h :: s)) as [rest|] eqn:E.
  - exists (R rest). unfold R. rewrite (@replace_hit old [h] _ _ old_nonempty E).
    reflexivity.
  - exists (R s). apply replace_miss; [exact old_nonempty | exact E].
Qed.

Lemma keep_hd_error s : hd_error (R s) = hd_error s.
Proof.
  destruct s as [|c s].
  - unfold R. rewrite replace_empty by exact old_nonempty. reflexivity.
  - destruct (Ascii.eqb_spec c h) as [->|Hc].
    + destruct (keep_head s) as [t ->]. reflexivity.
    + rewrite keep_other by exact Hc. reflexivity.
Qed.

(** A prefix free of [h] is copied. *)
Lemma keep_prefix m t : ~ In h m -> R (m ++ t) = m ++ R t.
Proof.
  induction m as [|c m IH]; intros Hm; [reflexivity|].
  simpl. rewrite keep_other.
  - rewrite IH; [reflexivity|]. intros Hin. apply Hm. right. exact Hin.
  - intros ->. apply Hm. left. reflexivity.
Qed.

(** An [h]-free prefix of the result is a prefix of the argument. *)
Lemma prefix_reflected p s x :
  ~ In h p -> strip_prefix p (R s) = Some x ->
  exists y, strip_prefix p s = Some y.
Proof.
  revert s x. induction p as [|a p IH]; intros s x Hp H.
  - exists s. reflexivity.
  - assert (Ha : a <> h) by (intros ->; apply Hp; left; reflexivity).
    assert (Hp' : ~ In h p) by (intros Hin; apply Hp; right; exact Hin).
    destruct s as [|c s].
    + unfold R in H. rewrite replace_empty in H by exact old_nonempty.
      discriminate.
    + destruct (Ascii.eqb_spec c h) as [->|Hc].
      * destruct (keep_head s) as [t Ht]. rewrite Ht in H. simpl in H.
        destruct (Ascii.eqb_spec a h); [contradiction|discriminate].
      * rewrite keep_other in H by exact Hc. simpl in H |- *.
        destruct (Ascii.eqb a c); [|discriminate].
        apply IH with (x := x); assumption.
Qed.

(** Counting the characters of a class that [suf] avoids. *)
Lemma keep_count (f : ascii -> bool) s :
  forallb (fun c => negb (f c)) suf = true ->
  length (filter f (R s)) = length (filter f s).
Proof.
  intros Hsuf. unfold R. pattern s, (replace old [h] s).
  apply replace_scan_ind.
  - exact old_nonempty.
  - reflexivity.
  - intros s0 rest E IH. apply strip_prefix_spec in E. subst s0.
    assert (Hz : filter f suf = []).
    { clear - Hsuf. induction suf as [|c l IHl]; [reflexivity|].
      simpl in *. apply andb_prop in Hsuf as [Hc Hl].
      destruct (f c); [discriminate|]. apply IHl. exact Hl. }
    rewrite !filter_app, !length_app, IH. unfold old. simpl. rewrite Hz.
    reflexivity.
  - intros c s0 _ IH. simpl. destruct (f c); simpl; rewrite IH; reflexivity.
Qed.

(** After one pass a new occurrence can only come from a doubled marker. *)
Lemma no_new_occurrence s :
  contains (old ++ suf) s = false -> contains old (R s) = false.
Proof.
  unfold R. pattern s, (replace old [h] s). apply replace_scan_ind.
  - exact old_nonempty.
  - reflexivity.
  - intros s0 rest E IH H.
    pose proof E as E'. apply strip_prefix_spec in E'. subst s0.
    assert (Hrest : contains (old ++ suf) rest = false).
    { destruct (contains (old ++ suf) rest) eqn:C; [|reflexivity].
      apply contains_spec in C as (a & b & ->).
      assert (contains (old ++ suf) (old ++ a ++ (old ++ suf) ++ b) = true)
        as C' by (apply contains_spec; exists (old ++ a), b;
                  repeat rewrite <- app_assoc; reflexivity).
      congruence. }
    specialize (IH Hrest). change ([h] ++ replace old [h] rest) with (h :: R rest).
    rewrite contains_cons. fold R in IH. rewrite IH.
    destruct (strip_prefix old (h :: R rest)) as [x|] eqn:P; [|reflexivity].
    unfold old in P. simpl in P. rewrite Ascii.eqb_refl in P.
    apply prefix_reflected in P as [y Hy]; [|exact h_not_in_suf].
    apply strip_prefix_spec in Hy. subst rest.
    assert (contains (old ++ suf) (old ++ suf ++ y) = true) as C'
      by (apply contains_spec; exists [], y;
          repeat rewrite <- app_assoc; reflexivity).
    congruence.
  - intros c s0 E IH H. rewrite contains_cons in H.
    destruct (strip_prefix (old ++ suf) (c :: s0)); [discriminate|].
    specialize (IH H). fold R in IH |- *. rewrite contains_cons, IH.
    destruct (strip_prefix old (c :: R s0)) as [x|] eqn:P; [|reflexivity].
    unfold old in P. simpl in P.
    destruct (Ascii.eqb_spec h c) as [<-|]; [|discriminate].
    apply prefix_reflected in P as [y Hy]; [|exact h_not_in_suf].
    unfold old in E. simpl in E. rewrite Ascii.eqb_refl in E. congruence.
Qed.

Lemma idempotent_without_doubled_marker s :
  contains (old ++ suf) s = false -> R (R s) = R s.
Proof.
  intros H. apply replace_absent; [exact old_nonempty|].
  apply no_new_occurrence. exact H.
Qed.

End HeadKeeping.

(** ** The fixed substitution of [REPLACEMENTS] *)

Lemma apply_replacements_eq s :
  apply_replacements s = replace (residue_C :: mass_marker) [residue_C] s.
Proof. reflexivity. Qed.

Lemma residue_not_in_marker : ~ In residue_C mass_marker.
Proof.
  unfold mass_marker, residue_C. intros H. not_in_literal H.
Qed.

Lemma marker_has_no_residue :
  forallb (fun c => negb (is_upper c)) mass_marker = true.
Proof. reflexivity. Qed.

(** The two classes of [N_TERM_MOD_PATTERN] are disjoint. *)
Lemma upper_not_ptm c : is_upper c = true -> in_ptm_class c = false.
Proof.
  destruct c as [[] [] [] [] [] [] [] []]; vm_compute; congruence.
Qed.

Lemma ptm_not_upper c : in_ptm_class c = true -> is_upper c = false.
Proof.
  intros H. destruct (is_upper c) eqn:U; [|reflexivity].
  apply upper_not_ptm in U. congruence.
Qed.

Lemma ptm_not_residue m :
  forallb in_ptm_class m = true -> ~ In residue_C m.
Proof.
  intros H Hin. rewrite forallb_forall in H. apply H in Hin. discriminate.
Qed.

(** ** The N-terminal pattern *)

Lemma span_spec p s a b :
  span p s = (a, b) -> s = a ++ b /\ forallb p a = true /\ stops p b.
Proof.
  revert a b. induction s as [|c s IH]; simpl; intros a b.
  - intros [= <- <-]. repeat split.
  - destruct (p c) eqn:Pc.
    + destruct (span p s) as [a' b'] eqn:E. intros [= <- <-].
      destruct (IH a' b' eq_refl) as (-> & Ha & Hb).
      split; [reflexivity|]. split; [|exact Hb].
      simpl. rewrite Pc. exact Ha.
    + intros [= <- <-]. repeat split. exact Pc.
Qed.

Lemma span_app p a b :
  forallb p a = true -> stops p b -> span p (a ++ b) = (a, b).
Proof.
  intros Ha Hb. induction a as [|c a IH]; simpl in *.
  - destruct b as [|c b]; [reflexivity|]. simpl in Hb |- *. rewrite Hb.
    reflexivity.
  - apply andb_prop in Ha as [Hc Ha]. rewrite Hc, (IH Ha). reflexivity.
Qed.

(** The search succeeds exactly on a non-empty run of class characters
    followed by an uppercase letter, and returns that decomposition. *)
Lemma search_n_term_intro ptm aa rest :
  ptm <> [] -> forallb in_ptm_class ptm = true -> is_upper aa = true ->
  search_n_term (ptm ++ aa :: rest) =
  Some {| group1 := ptm; group2 := aa; after_match := rest |}.
Proof.
  intros Hne Hptm Haa. unfold search_n_term.
  rewrite (span_app in_ptm_class ptm (aa :: rest) Hptm (upper_not_ptm aa Haa)).
  destruct ptm; [contradiction|]. rewrite Haa. reflexivity.
Qed.

Lemma search_n_term_elim s m :
  search_n_term s = Some m ->
  s = group1 m ++ group2 m :: after_match m
  /\ group1 m <> []
  /\ forallb in_ptm_class (group1 m) = true
  /\ is_upper (group2 m) = true.
Proof.
  unfold search_n_term. destruct (span in_ptm_class s) as [a b] eqn:E.
  apply span_spec in E as (-> & Ha & _).
  destruct a as [|p a]; [discriminate|].
  destruct b as [|aa b]; [discriminate|].
  destruct (is_upper aa) eqn:U; [|discriminate].
  intros [= <-]. simpl. repeat split; try assumption. discriminate.
Qed.

Lemma search_n_term_none s :
  search_n_term s = None <->
  ~ exists ptm aa rest,
      ptm <> [] /\ forallb in_ptm_class ptm = true /\ is_upper aa = true
      /\ s = ptm ++ aa :: rest.
Proof.
  split.
  - intros H (ptm & aa & rest & Hne & Hptm & Haa & ->).
    rewrite search_n_term_intro in H by assumption. discriminate.
  - intros H. destruct (search_n_term s) as [m|] eqn:E; [|reflexivity].
    exfalso. apply H. apply search_n_term_elim in E as (E & Hne & Hptm & Haa).
    exists (group1 m), (group2 m), (after_match m). auto.
Qed.

(** The fixed substitution neither creates nor destroys an N-terminal
    match, and leaves its two groups alone. *)
Lemma search_after_replacements s :
  search_n_term (apply_replacements s) =
  match search_n_term s with
  | Some m =>
      Some {| group1 := group1 m; group2 := group2 m;
              after_match := tl (apply_replacements (group2 m :: after_match m)) |}
  | None => None
  end.
Proof.
  unfold search_n_term at 2.
  destruct (span in_ptm_class s) as [a b] eqn:E.
  apply span_spec in E as (-> & Ha & Hb).
  rewrite (apply_replacements_eq (a ++ b)).
  rewrite (keep_prefix residue_C mass_marker a b (ptm_not_residue a Ha)).
  destruct b as [|c b].
  - rewrite replace_empty by discriminate. unfold search_n_term.
    rewrite (span_app in_ptm_class a [] Ha I). destruct a; reflexivity.
  - pose proof (keep_hd_error residue_C mass_marker (c :: b)) as Hhd.
    destruct (replace (residue_C :: mass_marker) [residue_C] (c :: b))
      as [|c' t] eqn:Er; [discriminate|].
    injection Hhd as ->. unfold search_n_term.
    rewrite (span_app in_ptm_class a (c :: t) Ha Hb).
    destruct a; [reflexivity|]. destruct (is_upper c); [|reflexivity].
    simpl. rewrite apply_replacements_eq, Er. reflexivity.
Qed.

(** ** Tokens *)

Lemma tokenize_head c s : exists t ts, tokenize (c :: s) = (c :: t) :: ts.
Proof.
  simpl. destruct (tokenize s) as [|t ts]; [exists [], []; reflexivity|].
  destruct (starts_upper t); eauto.
Qed.

Lemma tokenize_length s :
  length (tokenize s) = count_upper s + leading_marker s.
Proof.
  induction s as [|c s IH]; [reflexivity|].
  destruct s as [|c' s].
  - unfold count_upper. simpl. destruct (is_upper c); reflexivity.
  - destruct (tokenize_head c' s) as (t & ts & Ht).
    change (tokenize (c :: c' :: s))
      with (match tokenize (c' :: s) with
            | [] => [[c]]
            | t :: ts => if starts_upper t then [c] :: t :: ts else (c :: t) :: ts
            end).
    rewrite Ht in IH |- *. unfold count_upper in *. simpl in IH |- *.
    destruct (is_upper c), (is_upper c'); simpl in *; lia.
Qed.

Lemma tokenize_after_replacements s :
  length (tokenize (apply_replacements s)) = length (tokenize s).
Proof.
  rewrite !tokenize_length, apply_replacements_eq. f_equal.
  - apply (keep_count residue_C mass_marker is_upper s marker_has_no_residue).
  - pose proof (keep_hd_error residue_C mass_marker s) as H.
    unfold leading_marker.
    destruct (replace (residue_C :: mass_marker) [residue_C] s), s;
      try discriminate; try reflexivity.
    injection H as ->. reflexivity.
Qed.

(** ** Splitting and joining on commas *)

Lemma split_on_comma_free w : comma_free w -> split_on ch_comma w = [w].
Proof.
  induction 1 as [|c w Hc Hw IH]; [reflexivity|].
  simpl. destruct (Ascii.eqb_spec c ch_comma); [contradiction|].
  rewrite IH. reflexivity.
Qed.

Lemma split_on_app w r :
  comma_free w ->
  split_on ch_comma (w ++ ch_comma :: r) = w :: split_on ch_comma r.
Proof.
  induction 1 as [|c w Hc Hw IH]; simpl.
  - reflexivity.
  - destruct (Ascii.eqb_spec c ch_comma); [contradiction|].
    rewrite IH. reflexivity.
Qed.

Lemma split_join ws :
  ws <> [] -> Forall comma_free ws ->
  split_on ch_comma (join [ch_comma] ws) = ws.
Proof.
  intros Hne H. induction H as [|w ws Hw Hws IH]; [contradiction|].
  destruct ws as [|w' ws].
  - simpl. apply split_on_comma_free. exact Hw.
  - change (join [ch_comma] (w :: w' :: ws))
      with (w ++ ch_comma :: join [ch_comma] (w' :: ws)).
    rewrite split_on_app by exact Hw. rewrite IH by discriminate. reflexivity.
Qed.

Lemma split_on_nonempty s : split_on ch_comma s <> [].
Proof.
  destruct s as [|c s]; simpl; [discriminate|].
  destruct (Ascii.eqb c ch_comma); [discriminate|].
  destruct (split_on ch_comma s); discriminate.
Qed.

Lemma mapM_length {A B : Type} (f : A -> result B) l bs :
  mapM f l = Ok bs -> length bs = length l.
Proof.
  revert bs. induction l as [|a l IH]; simpl; intros bs.
  - intros [= <-]. reflexivity.
  - destruct (f a); [|discriminate]. simpl.
    destruct (mapM f l) as [bs'|]; [|discriminate]. simpl.
    intros [= <-]. simpl. rewrite (IH bs' eq_refl). reflexivity.
Qed.

Lemma mapM_raise {A B : Type} (f : A -> result B) l e :
  mapM f l = Raise e -> exists a, In a l /\ f a = Raise e.
Proof.
  induction l as [|a l IH]; simpl; [discriminate|].
  destruct (f a) eqn:Fa; simpl.
  - destruct (mapM f l); simpl; [discriminate|].
    intros [= <-]. destruct (IH eq_refl) as (a' & Hin & Ha').
    exists a'. auto.
  - intros [= <-]. exists a. auto.
Qed.

(** ** The characters of printed numbers *)

Lemma number_char_not_comma c : number_char c -> c <> ch_comma.
Proof.
  intros [H|H] ->; [discriminate|]. not_in_literal H.
Qed.

Lemma number_str_comma_free s : number_str s -> comma_free s.
Proof.
  apply Forall_impl. exact number_char_not_comma.
Qed.

Lemma number_str_literal (s : str) :
  forallb (fun c => is_digit c || existsb (Ascii.eqb c) (s2l "-+.einfa")) s = true ->
  number_str s.
Proof.
  intros H. apply Forall_forall. intros c Hc.
  rewrite forallb_forall in H. specialize (H c Hc).
  apply orb_prop in H as [H|H]; [left; exact H|right].
  apply existsb_exists in H as (x & Hx & E).
  apply Ascii.eqb_eq in E. subst x. exact Hx.
Qed.

Lemma number_str_uint d : number_str (s2l (NilEmpty.string_of_uint d)).
Proof.
  induction d; simpl; try (constructor; [left; reflexivity | assumption]).
  constructor.
Qed.

Lemma number_str_of_Z n : number_str (str_of_Z n).
Proof.
  assert (Hu : forall d, number_str (s2l (NilZero.string_of_uint d))).
  { intros d. unfold NilZero.string_of_uint.
    destruct d; try apply number_str_uint.
    constructor; [left; reflexivity | constructor]. }
  unfold str_of_Z, NilZero.string_of_int.
  destruct (Z.to_int n) as [d|d]; [apply Hu|].
  change (number_str (ch_minus :: s2l (NilZero.string_of_uint d))).
  constructor; [right; simpl; tauto | apply Hu].
Qed.

Lemma number_str_app a b : number_str a -> number_str b -> number_str (a ++ b).
Proof. intros Ha Hb. apply Forall_app. split; assumption. Qed.

Lemma number_str_firstn n s : number_str s -> number_str (firstn n s).
Proof.
  intros H. rewrite <- (firstn_skipn n s) in H.
  apply Forall_app in H. tauto.
Qed.

Lemma number_str_skipn n s : number_str s -> number_str (skipn n s).
Proof.
  intros H. rewrite <- (firstn_skipn n s) in H.
  apply Forall_app in H. tauto.
Qed.

Lemma number_str_zeros n : number_str (PyFloat.zeros n).
Proof.
  unfold PyFloat.zeros. induction (Z.to_nat n); simpl; constructor.
  - left. reflexivity.
  - assumption.
Qed.

Lemma number_str_rstrip_zeros s :
  number_str s -> number_str (PyFloat.rstrip_zeros s).
Proof.
  intros H. unfold PyFloat.rstrip_zeros. apply Forall_rev.
  apply Forall_rev in H. induction H as [|c r Hc Hr IH]; simpl.
  - constructor.
  - destruct (Ascii.eqb c "0"); [exact IH | constructor; assumption].
Qed.

Lemma number_str_digits_at m e n checked ds k :
  PyFloat.digits_at m e n checked = Some (ds, k) -> number_str ds.
Proof.
  unfold PyFloat.digits_at.
  destruct (PyFloat.as_fraction m e) as [num den].
  destruct (0 <=? n - PyFloat.decimal_point num den)%Z;
    repeat match goal with
           | |- context [if ?b then _ else _] => destruct b
           end;
    intros [= <- _]; try discriminate;
    apply number_str_rstrip_zeros, number_str_of_Z.
Qed.

Lemma number_str_shortest_digits m e n fuel :
  number_str (fst (PyFloat.shortest_digits m e n fuel)).
Proof.
  revert n. induction fuel as [|fuel IH]; intros n; simpl.
  - destruct (PyFloat.digits_at m e n false) as [[ds k]|] eqn:E.
    + apply number_str_digits_at in E. exact E.
    + constructor.
  - destruct (PyFloat.digits_at m e n true) as [[ds k]|] eqn:E.
    + apply number_str_digits_at in E. exact E.
    + apply IH.
Qed.

Lemma number_str_format_exponent ex : number_str (PyFloat.format_exponent ex).
Proof.
  unfold PyFloat.format_exponent. constructor.
  - destruct (ex <? 0)%Z; right; simpl; tauto.
  - destruct (length (str_of_Z (Z.abs ex)) <? 2).
    + apply number_str_app; [apply number_str_zeros | apply number_str_of_Z].
    + apply number_str_of_Z.
Qed.

Lemma number_str_layout ds k : number_str ds -> number_str (PyFloat.layout ds k).
Proof.
  intros H. unfold PyFloat.layout.
  assert (Hdot : number_char ch_dot) by (right; simpl; tauto).
  destruct ((k <=? -4) || (16 <? k))%Z.
  - destruct H as [|d rest Hd Hrest]; [constructor|].
    constructor; [exact Hd|]. apply number_str_app.
    + destruct rest; [constructor|]. constructor; assumption.
    + constructor; [right; simpl; tauto | apply number_str_format_exponent].
  - destruct (k <=? 0)%Z.
    + apply number_str_app; [apply number_str_literal; reflexivity|].
      apply number_str_app; [apply number_str_zeros | exact H].
    + destruct (k <? Z.of_nat (length ds))%Z.
      * apply number_str_app; [apply number_str_firstn; exact H|].
        constructor; [exact Hdot | apply number_str_skipn; exact H].
      * apply number_str_app; [exact H|]. apply number_str_app.
        -- apply number_str_zeros.
        -- apply number_str_literal. reflexivity.
Qed.

(** A printed float holds no comma. *)
Lemma number_str_to_str x : number_str (PyFloat.to_str x).
Proof.
  assert (Hs : forall s, number_str (PyFloat.sign_str s)).
  { intros []; simpl; [|constructor].
    constructor; [right; simpl; tauto | constructor]. }
  destruct x as [s|s| |s m e]; cbn [PyFloat.to_str].
  - apply number_str_app; [apply Hs | apply number_str_literal; reflexivity].
  - apply number_str_app; [apply Hs | apply number_str_literal; reflexivity].
  - apply number_str_literal. reflexivity.
  - pose proof (number_str_shortest_digits m e 1 16) as H.
    destruct (PyFloat.shortest_digits m e 1 16) as [ds k]. simpl in H.
    apply number_str_app; [apply Hs | apply number_str_layout; exact H].
Qed.

Lemma format_scores_count xs :
  xs <> [] ->
  length (split_on ch_comma (_format_scores xs)) = length xs.
Proof.
  intros Hne. unfold _format_scores. rewrite split_join.
  - apply length_map.
  - destruct xs; [contradiction|discriminate].
  - apply Forall_forall. intros w Hw. apply in_map_iff in Hw as (x & <- & _).
    apply number_str_comma_free, number_str_to_str.
Qed.

(** ** The models at work *)

Example fixed_substitution_example :
  apply_replacements (s2l "ABC+57.021DEF") = s2l "ABCDEF".
Proof. vm_compute. reflexivity. Qed.

Example tokenize_example :
  map l2s (tokenize (s2l "+42.011GK+15.995PEPT"))
  = ["+42.011"; "G"; "K+15.995"; "P"; "E"; "P"; "T"]%string.
Proof. reflexivity. Qed.

(** Literals whose Python results are well known. *)
Example reprint_examples :
  map reprint
    [ "0.1"; "1"; "1e16"; "1e15"; "0.00001"; "0.0001"; "5e-324"; "1e400";
      "-0.0"; " 1_0.5e1 "; "9007199254740993"; "NaN"; "1.0.0"; "" ]%string
  = [ Ok "0.1"; Ok "1.0"; Ok "1e+16"; Ok "1000000000000000.0"; Ok "1e-05";
      Ok "0.0001"; Ok "5e-324"; Ok "inf"; Ok "-0.0"; Ok "105.0";
      Ok "9007199254740992.0"; Ok "nan"; Raise ValueError;
      Raise ValueError ]%string.
Proof. vm_compute. reflexivity. Qed.

Example float_sum_example :
  (x <- PyFloat.of_str (s2l "0.1") ;; y <- PyFloat.of_str (s2l "0.2") ;;
   Ok (l2s (PyFloat.to_str (PyFloat.add x y))))
  = Ok "0.30000000000000004"%string.
Proof. vm_compute. reflexivity. Qed.

Example py_int_examples :
  map (fun s => py_int (s2l s)) [ "007"; " -1_0 "; "1__0"; "+"; "" ]%string
  = [ Ok 7%Z; Ok (-10)%Z; Raise ValueError; Raise ValueError; Raise ValueError ].
Proof. vm_compute. reflexivity. Qed.

(** ** The four outcomes of [format_sequence_and_scores] *)

Lemma align_pass sequence aa_scores :
  search_n_term (apply_replacements sequence) = None ->
  format_sequence_and_scores sequence aa_scores =
  Ok (apply_replacements sequence, aa_scores).
Proof.
  intros H. unfold format_sequence_and_scores. rewrite H. reflexivity.
Qed.

Lemma align_parse_error sequence aa_scores m e :
  search_n_term (apply_replacements sequence) = Some m ->
  _parse_scores aa_scores = Raise e ->
  format_sequence_and_scores sequence aa_scores = Raise e.
Proof.
  intros H P. unfold format_sequence_and_scores. rewrite H, P. reflexivity.
Qed.

Lemma align_short sequence aa_scores m scores :
  search_n_term (apply_replacements sequence) = Some m ->
  _parse_scores aa_scores = Ok scores ->
  length scores < 2 ->
  format_sequence_and_scores sequence aa_scores = Raise IndexError.
Proof.
  intros H P L. unfold format_sequence_and_scores. rewrite H, P.
  destruct scores as [|x0 [|x1 rest]]; [reflexivity | reflexivity |].
  simpl in L. lia.
Qed.

Lemma align_merge sequence aa_scores m x0 x1 rest :
  search_n_term (apply_replacements sequence) = Some m ->
  _parse_scores aa_scores = Ok (x0 :: x1 :: rest) ->
  format_sequence_and_scores sequence aa_scores =
  Ok (group2 m :: group1 m ++ after_match m,
      _format_scores (mean2 x0 x1 :: rest)).
Proof.
  intros H P. unfold format_sequence_and_scores, sub_n_term.
  rewrite H, P. reflexivity.
Qed.

(** ** Claims about [format_sequence_and_scores] *)

Lemma parse_scores_length aa_scores scores :
  _parse_scores aa_scores = Ok scores ->
  length scores = length (split_on ch_comma aa_scores).
Proof. apply mapM_length. Qed.

Lemma relocated_tokens m :
  group1 m <> [] -> forallb in_ptm_class (group1 m) = true ->
  is_upper (group2 m) = true ->
  S (length (tokenize (group2 m :: group1 m ++ after_match m))) =
  length (tokenize (group1 m ++ group2 m :: after_match m)).
Proof.
  destruct m as [g1 g2 after]. cbn [group1 group2 after_match].
  intros Hne Hg1 Hg2.
  rewrite !tokenize_length.
  destruct g1 as [|p g1]; [contradiction|].
  cbn [forallb] in Hg1. apply andb_prop in Hg1 as [Hp Hg1].
  apply ptm_not_upper in Hp.
  change ((p :: g1) ++ g2 :: after) with (p :: (g1 ++ g2 :: after)).
  change ((p :: g1) ++ after) with (p :: (g1 ++ after)).
  unfold leading_marker, count_upper. cbn [filter].
  rewrite Hg2, Hp, !filter_app. cbn [filter]. rewrite Hg2.
  cbn [length]. rewrite !length_app. cbn [length]. lia.
Qed.

(** C1.  For every valid aligned input (a score string that parses as
    comma-separated floats, with one score per token of the sequence),
    [format_sequence_and_scores] returns a pair in which the sequence has
    as many tokens as the score string has comma-separated scores. *)
Theorem align_token_count_equals_score_count sequence aa_scores scores :
  _parse_scores aa_scores = Ok scores ->
  length (tokenize sequence) = length scores ->
  exists sequence' aa_scores',
    format_sequence_and_scores sequence aa_scores = Ok (sequence', aa_scores')
    /\ length (tokenize sequence') = length (split_on ch_comma aa_scores').
Proof.
  intros P L.
  rewrite <- tokenize_after_replacements in L.
  destruct (search_n_term (apply_replacements sequence)) as [m|] eqn:E.
  - pose proof E as E'.
    apply search_n_term_elim in E' as (Hs & Hne & Hg1 & Hg2).
    pose proof (relocated_tokens m Hne Hg1 Hg2) as T.
    rewrite <- Hs, L in T.
    destruct scores as [|x0 [|x1 rest]].
    + discriminate.
    + cbn [length] in T. injection T as T.
      destruct (tokenize_head (group2 m) (group1 m ++ after_match m))
        as (t & ts & Ht).
      simpl in Ht. rewrite Ht in T. discriminate.
    + exists (group2 m :: group1 m ++ after_match m),
        (_format_scores (mean2 x0 x1 :: rest)).
      split; [apply (align_merge _ _ E P)|].
      rewrite format_scores_count by discriminate.
      cbn [length] in T |- *. lia.
  - exists (apply_replacements sequence), aa_scores.
    split; [apply align_pass; exact E|].
    rewrite L. apply parse_scores_length. exact P.
Qed.

Lemma align_token_count_equals_score_count_witness :
  exists sequence' aa_scores',
    format_sequence_and_scores (s2l "+42.011GC+57.021K") (s2l "0.5,0.25,1.0,3e-1")
    = Ok (sequence', aa_scores')
    /\ length (tokenize sequence') = length (split_on ch_comma aa_scores').
Proof.
  eapply (@align_token_count_equals_score_count
            (s2l "+42.011GC+57.021K") (s2l "0.5,0.25,1.0,3e-1")).
  - vm_compute. reflexivity.
  - vm_compute. reflexivity.
Defined.

(** C2.  On the sequence ["+42.011GKPEPT"] with the scores
    ["1.0,2.0,3.0,4.0,5.0,6.0,7.0"], [format_sequence_and_scores] returns
    ["G+42.011KPEPT"] and ["1.5,3.0,4.0,5.0,6.0,7.0"]: the first two scores
    are replaced by their mean, printed 1.5, the other five are unchanged,
    and the number of scores drops from 7 to 6. *)
Theorem n_terminal_relocation_example :
  let aa_scores := s2l "1.0,2.0,3.0,4.0,5.0,6.0,7.0" in
  let aa_scores' := s2l "1.5,3.0,4.0,5.0,6.0,7.0" in
  format_sequence_and_scores (s2l "+42.011GKPEPT") aa_scores
  = Ok (s2l "G+42.011KPEPT", aa_scores')
  /\ length (split_on ch_comma aa_scores) = 7
  /\ length (split_on ch_comma aa_scores') = 6
  /\ exists x0 x1 rest,
       _parse_scores aa_scores = Ok (x0 :: x1 :: rest)
       /\ _parse_scores aa_scores' = Ok (mean2 x0 x1 :: rest)
       /\ PyFloat.to_str (mean2 x0 x1) = s2l "1.5".
Proof.
  cbv zeta. split; [vm_compute; reflexivity|].
  split; [reflexivity|]. split; [reflexivity|].
  do 3 eexists. split; [vm_compute; reflexivity|].
  split; vm_compute; reflexivity.
Qed.

(** C6.  A sequence without an occurrence of ["C+57.021"] that does not
    begin with an N-terminal modification marker comes back unchanged,
    together with the unchanged score string. *)
Theorem align_identity_without_markers sequence aa_scores :
  contains (s2l "C+57.021") sequence = false ->
  search_n_term sequence = None ->
  format_sequence_and_scores sequence aa_scores = Ok (sequence, aa_scores).
Proof.
  intros C N.
  assert (E : apply_replacements sequence = sequence).
  { rewrite apply_replacements_eq. apply replace_absent; [discriminate|].
    exact C. }
  rewrite align_pass; rewrite E; [reflexivity | exact N].
Qed.

Lemma align_identity_without_markers_witness :
  contains (s2l "C+57.021") (s2l "PEPC+15.995TIDE") = false
  /\ search_n_term (s2l "PEPC+15.995TIDE") = None
  /\ format_sequence_and_scores (s2l "PEPC+15.995TIDE") (s2l "not,scores")
     = Ok (s2l "PEPC+15.995TIDE", s2l "not,scores").
Proof.
  split; [reflexivity|]. split; [reflexivity|].
  apply (@align_identity_without_markers
           (s2l "PEPC+15.995TIDE") (s2l "not,scores")); reflexivity.
Defined.

Lemma search_after_replacements_some sequence m :
  search_n_term sequence = Some m ->
  search_n_term (apply_replacements sequence) =
  Some {| group1 := group1 m; group2 := group2 m;
          after_match := tl (apply_replacements (group2 m :: after_match m)) |}.
Proof. intros H. rewrite search_after_replacements, H. reflexivity. Qed.

Lemma search_after_replacements_none sequence :
  search_n_term sequence = None ->
  search_n_term (apply_replacements sequence) = None.
Proof. intros H. rewrite search_after_replacements, H. reflexivity. Qed.

Lemma of_str_raises s e : PyFloat.of_str s = Raise e -> e = ValueError.
Proof.
  unfold PyFloat.of_str. destruct (strip s) as [|c t]; [congruence|].
  destruct (remove_underscores None (c :: t)) as [u|]; [|congruence].
  destruct (PyFloat.parse_inf_or_nan u); [discriminate|].
  destruct (PyFloat.parse_decimal u); [discriminate|congruence].
Qed.

Lemma parse_scores_raises aa_scores e :
  _parse_scores aa_scores = Raise e -> e = ValueError.
Proof.
  intros H. apply mapM_raise in H as (a & _ & H).
  apply of_str_raises in H. exact H.
Qed.

(** C9.  When the sequence matches the N-terminal pattern and the score
    string parses to fewer than two scores, the score merge raises
    [IndexError]; with two scores or more the function returns. *)
Theorem merge_raises_index_error_below_two_scores sequence aa_scores m scores :
  search_n_term sequence = Some m ->
  _parse_scores aa_scores = Ok scores ->
  (length scores < 2 ->
   format_sequence_and_scores sequence aa_scores = Raise IndexError)
  /\ (2 <= length scores ->
      exists r, format_sequence_and_scores sequence aa_scores = Ok r).
Proof.
  intros H P. apply search_after_replacements_some in H. split; intros L.
  - apply (align_short _ _ H P L).
  - destruct scores as [|x0 [|x1 rest]]; simpl in L; try lia.
    eexists. apply (align_merge _ _ H P).
Qed.

Lemma merge_raises_index_error_below_two_scores_witness :
  format_sequence_and_scores (s2l "+42.011GK") (s2l "0.5") = Raise IndexError
  /\ exists r, format_sequence_and_scores (s2l "+42.011GK") (s2l "0.5,0.25") = Ok r.
Proof.
  split.
  - eapply (@merge_raises_index_error_below_two_scores
              (s2l "+42.011GK") (s2l "0.5")).
    + vm_compute. reflexivity.
    + vm_compute. reflexivity.
    + simpl. lia.
  - eapply (@merge_raises_index_error_below_two_scores
              (s2l "+42.011GK") (s2l "0.5,0.25")).
    + vm_compute. reflexivity.
    + vm_compute. reflexivity.
    + simpl. lia.
Defined.

(** C10.  A sequence that begins with two (or more) concatenated
    modification markers before its first residue is handled as one
    N-terminal marker: the whole run is moved behind the first residue,
    the first two scores are averaged and the number of scores drops by
    one; the input does not pass through unchanged. *)
Theorem concatenated_markers_move_as_one
    m1 m2 aa rest aa_scores x0 x1 scores :
  m1 <> [] -> m2 <> [] ->
  forallb in_ptm_class m1 = true -> forallb in_ptm_class m2 = true ->
  is_upper aa = true ->
  _parse_scores aa_scores = Ok (x0 :: x1 :: scores) ->
  let sequence := m1 ++ m2 ++ aa :: rest in
  let sequence' := aa :: (m1 ++ m2) ++ tl (apply_replacements (aa :: rest)) in
  let aa_scores' := _format_scores (mean2 x0 x1 :: scores) in
  format_sequence_and_scores sequence aa_scores = Ok (sequence', aa_scores')
  /\ sequence' <> sequence
  /\ S (length (split_on ch_comma aa_scores')) =
     length (split_on ch_comma aa_scores).
Proof.
  intros Hm1 Hm2 C1 C2 U P sequence sequence' aa_scores'.
  assert (Hne : m1 ++ m2 <> []) by (destruct m1; [contradiction|discriminate]).
  assert (C : forallb in_ptm_class (m1 ++ m2) = true)
    by (rewrite forallb_app, C1, C2; reflexivity).
  assert (S : search_n_term sequence =
              Some {| group1 := m1 ++ m2; group2 := aa; after_match := rest |}).
  { unfold sequence. rewrite app_assoc.
    apply search_n_term_intro; assumption. }
  apply search_after_replacements_some in S. cbn [group1 group2 after_match] in S.
  split; [|split].
  - rewrite (align_merge _ _ S P). reflexivity.
  - unfold sequence', sequence. destruct m1 as [|c m1]; [contradiction|].
    simpl. intros [= E _]. simpl in C1. rewrite <- E in C1.
    apply andb_prop in C1 as [C1 _]. apply ptm_not_upper in C1. congruence.
  - unfold aa_scores'. rewrite format_scores_count by discriminate.
    rewrite <- (parse_scores_length _ P). reflexivity.
Qed.

Lemma concatenated_markers_move_as_one_witness :
  format_sequence_and_scores (s2l "+42.011+15.995GC+57.021K") (s2l "0.5,0.25,1.0")
  = Ok (s2l "G+42.011+15.995CK", s2l "0.375,1.0").
Proof.
  epose proof (@concatenated_markers_move_as_one
                 (s2l "+42.011") (s2l "+15.995") "G"%char (s2l "C+57.021K")
                 (s2l "0.5,0.25,1.0") _ _ _
                 ltac:(discriminate) ltac:(discriminate)
                 eq_refl eq_refl eq_refl ltac:(vm_compute; reflexivity))
    as [H _].
  vm_compute in H |- *. exact H.
Defined.

(** C5 as stated fails: a malformed score string passes through when the
    sequence has no N-terminal marker. *)
Lemma malformed_scores_pass_through :
  _parse_scores (s2l "abc") = Raise ValueError
  /\ format_sequence_and_scores (s2l "PEPTIDE") (s2l "abc")
     = Ok (s2l "PEPTIDE", s2l "abc").
Proof. split; vm_compute; reflexivity. Qed.

(** C5, amended.  A score string that fails to parse makes
    [format_sequence_and_scores] raise [ValueError] when the sequence
    begins with an N-terminal modification marker; otherwise the scores
    are not parsed and the string is returned as it is. *)
Theorem malformed_scores_raise_only_at_merge sequence aa_scores e :
  _parse_scores aa_scores = Raise e ->
  (search_n_term sequence <> None ->
   format_sequence_and_scores sequence aa_scores = Raise ValueError)
  /\ (search_n_term sequence = None ->
      format_sequence_and_scores sequence aa_scores =
      Ok (apply_replacements sequence, aa_scores)).
Proof.
  intros P. pose proof (parse_scores_raises _ P) as ->. split; intros H.
  - destruct (search_n_term sequence) as [m|] eqn:E; [|contradiction].
    apply search_after_replacements_some in E.
    apply (align_parse_error _ _ E P).
  - apply align_pass, search_after_replacements_none, H.
Qed.

Lemma malformed_scores_raise_only_at_merge_witness :
  format_sequence_and_scores (s2l "+42.011GK") (s2l "0.5,x,1.0") = Raise ValueError
  /\ format_sequence_and_scores (s2l "GC+57.021K") (s2l "0.5,x,1.0")
     = Ok (s2l "GCK", s2l "0.5,x,1.0").
Proof.
  split.
  - eapply (@malformed_scores_raise_only_at_merge
              (s2l "+42.011GK") (s2l "0.5,x,1.0")).
    + vm_compute. reflexivity.
    + vm_compute. discriminate.
  - eapply (@malformed_scores_raise_only_at_merge
              (s2l "GC+57.021K") (s2l "0.5,x,1.0") ValueError).
    + vm_compute. reflexivity.
    + vm_compute. reflexivity.
Defined.

(** ** Claims about the fixed substitution *)

(** C4 as stated fails: removing a marker can bring a second marker next
    to the residue, so a second pass still finds a match. *)
Lemma substitution_not_idempotent :
  apply_replacements (apply_replacements (s2l "C+57.021+57.021"))
  <> apply_replacements (s2l "C+57.021+57.021")
  /\ contains (s2l "C+57.021") (apply_replacements (s2l "C+57.021+57.021"))
     = true.
Proof. vm_compute. split; [discriminate | reflexivity]. Qed.

(** C4, amended.  On a sequence without an occurrence of
    ["C+57.021+57.021"], a second pass of the fixed substitution changes
    nothing, and no ["C+57.021"] is left after the first pass. *)
Theorem substitution_idempotent_without_doubled_marker sequence :
  contains (s2l "C+57.021+57.021") sequence = false ->
  apply_replacements (apply_replacements sequence) = apply_replacements sequence
  /\ contains (s2l "C+57.021") (apply_replacements sequence) = false.
Proof.
  intros H. rewrite !apply_replacements_eq. split.
  - apply (@idempotent_without_doubled_marker _ _ residue_not_in_marker _ H).
  - apply (@no_new_occurrence _ _ residue_not_in_marker _ H).
Qed.

Lemma substitution_idempotent_without_doubled_marker_witness :
  contains (s2l "C+57.021+57.021") (s2l "AC+57.021C+57.021+15.995K") = false
  /\ apply_replacements (apply_replacements (s2l "AC+57.021C+57.021+15.995K"))
     = apply_replacements (s2l "AC+57.021C+57.021+15.995K")
  /\ contains (s2l "C+57.021")
       (apply_replacements (s2l "AC+57.021C+57.021+15.995K")) = false.
Proof.
  split; [reflexivity|].
  apply (@substitution_idempotent_without_doubled_marker
           (s2l "AC+57.021C+57.021+15.995K")).
  reflexivity.
Defined.

(** ** Claims about [format_scan_index] *)

Lemma sub_file_idx_hit s g0 rest :
  match_file_idx s = Some (g0, rest) ->
  sub_file_idx s =
  (r <- _transform_match_file_idx g0 ;; t <- sub_file_idx rest ;; Ok (r ++ t)).
Proof.
  intros H. funelim (sub_file_idx s).
  - discriminate.
  - rewrite Heq in H1. injection H1 as <- <-. reflexivity.
  - congruence.
Qed.

Lemma sub_file_idx_miss c s :
  match_file_idx (c :: s) = None ->
  sub_file_idx (c :: s) = (t <- sub_file_idx s ;; Ok (c :: t)).
Proof.
  intros H. funelim (sub_file_idx (c :: s)).
  - congruence.
  - reflexivity.
Qed.

Lemma sub_file_idx_prefix pre s :
  bracket_free pre ->
  sub_file_idx (pre ++ s) = (t <- sub_file_idx s ;; Ok (pre ++ t)).
Proof.
  induction pre as [|c pre IH]; intros H.
  - simpl. destruct (sub_file_idx s); reflexivity.
  - simpl. rewrite sub_file_idx_miss.
    + rewrite IH by (intros Hin; apply H; right; exact Hin).
      destruct (sub_file_idx s); reflexivity.
    + simpl. destruct (Ascii.eqb_spec c ch_lbracket) as [->|]; [|reflexivity].
      exfalso. apply H. left. reflexivity.
Qed.

Lemma sub_file_idx_bracket_free s : bracket_free s -> sub_file_idx s = Ok s.
Proof.
  intros H. rewrite <- (app_nil_r s) at 1.
  rewrite sub_file_idx_prefix by exact H.
  simp sub_file_idx. simpl. rewrite app_nil_r. reflexivity.
Qed.

Lemma strip_markers_bracket_free s :
  bracket_free s -> bracket_free (strip_markers s).
Proof.
  intros H Hin. apply filter_In in Hin as [Hin _]. exact (H Hin).
Qed.

(** One bracketed number between two bracket-free parts. *)
Lemma format_scan_index_one_bracket pre ds suf r :
  bracket_free pre -> bracket_free suf ->
  match_file_idx (ch_lbracket :: ds ++ ch_rbracket :: strip_markers suf)
  = Some (ch_lbracket :: ds ++ [ch_rbracket], strip_markers suf) ->
  strip_markers ds = ds ->
  _transform_match_file_idx (ch_lbracket :: ds ++ [ch_rbracket]) = Ok r ->
  format_scan_index (pre ++ ch_lbracket :: ds ++ ch_rbracket :: suf) =
  Ok (strip_markers pre ++ r ++ strip_markers suf).
Proof.
  intros Hpre Hsuf M D T. unfold format_scan_index.
  fold (strip_markers (pre ++ ch_lbracket :: ds ++ ch_rbracket :: suf)).
  unfold strip_markers at 1. rewrite filter_app. fold (strip_markers pre).
  change (filter (fun c => negb (in_strip_class c))
            (ch_lbracket :: ds ++ ch_rbracket :: suf))
    with (ch_lbracket :: strip_markers (ds ++ ch_rbracket :: suf)).
  unfold strip_markers at 2. rewrite filter_app. fold (strip_markers ds).
  change (filter (fun c => negb (in_strip_class c)) (ch_rbracket :: suf))
    with (ch_rbracket :: strip_markers suf).
  rewrite D, sub_file_idx_prefix by (apply strip_markers_bracket_free; exact Hpre).
  rewrite (sub_file_idx_hit _ M), T.
  rewrite sub_file_idx_bracket_free
    by (apply strip_markers_bracket_free; exact Hsuf).
  reflexivity.
Qed.

(** C3 as stated fails: a bracketed zero yields the file index [F-1], and
    an input without a bracketed number is returned stripped; neither
    raises. *)
Lemma zero_file_number_gives_negative_index :
  format_scan_index (s2l "ms_run[0]:index=7") = Ok (s2l "F-1:7")
  /\ format_scan_index (s2l "ms_run:index=7") = Ok (s2l ":7").
Proof. split; vm_compute; reflexivity. Qed.

(** C3, amended.  Around bracket-free text, a bracketed [1] becomes [F0]
    and a bracketed [0] becomes [F-1]; an input without an opening bracket
    is returned with its lowercase letters, [=] and [_] removed.  No error
    is raised in any of the three cases. *)
Theorem file_number_boundaries pre suf :
  bracket_free pre -> bracket_free suf ->
  format_scan_index (pre ++ s2l "[1]" ++ suf)
  = Ok (strip_markers pre ++ s2l "F0" ++ strip_markers suf)
  /\ format_scan_index (pre ++ s2l "[0]" ++ suf)
     = Ok (strip_markers pre ++ s2l "F-1" ++ strip_markers suf)
  /\ format_scan_index pre = Ok (strip_markers pre).
Proof.
  intros Hpre Hsuf. split; [|split].
  - apply (@format_scan_index_one_bracket pre (s2l "1") suf (s2l "F0") Hpre Hsuf);
      reflexivity.
  - apply (@format_scan_index_one_bracket pre (s2l "0") suf (s2l "F-1") Hpre Hsuf);
      reflexivity.
  - unfold format_scan_index. apply sub_file_idx_bracket_free.
    apply strip_markers_bracket_free. exact Hpre.
Qed.

Lemma file_number_boundaries_witness :
  format_scan_index (s2l "ms_run[1]:index=7") = Ok (s2l "F0:7")
  /\ format_scan_index (s2l "ms_run[0]:index=7") = Ok (s2l "F-1:7")
  /\ format_scan_index (s2l "ms_run") = Ok (s2l "").
Proof.
  assert (B1 : bracket_free (s2l "ms_run")) by (intros H; not_in_literal H).
  assert (B2 : bracket_free (s2l ":index=7")) by (intros H; not_in_literal H).
  exact (@file_number_boundaries (s2l "ms_run") (s2l ":index=7") B1 B2).
Defined.

(** C7.  ["ms_run[3]:index=7"] is remapped to ["F2:7"]. *)
Theorem index_remapping_example :
  format_scan_index (s2l "ms_run[3]:index=7") = Ok (s2l "F2:7").
Proof. vm_compute. reflexivity. Qed.

(** ** Claims about [format_output] *)

Lemma format_output_without_scores_raises output_data :
  has_column "aa_scores" output_data = false ->
  format_output output_data = Raise AttributeError.
Proof.
  intros H. unfold format_output. rewrite H. reflexivity.
Qed.

(** C8: the code does not do what the claim says.  On a table without a
    score column [format_output] raises [AttributeError], because the
    class has no [format_sequence] method; neither the sequences nor the
    scan indices are rewritten. *)
Theorem format_output_without_score_column_fails :
  format_output
    [ ("sequence"%string, [s2l "+42.011GK"]);
      ("scan_indices"%string, [s2l "ms_run[1]:index=0"]) ]
  = Raise AttributeError.
Proof. reflexivity. Qed.

(** * Further properties of the code *)

(** ** Digit runs and [int] *)

Lemma digit_facts c :
  is_digit c = true ->
  is_space c = false /\ in_strip_class c = false
  /\ Ascii.eqb c ch_minus = false /\ Ascii.eqb c ch_plus = false
  /\ Ascii.eqb c ch_underscore = false /\ Ascii.eqb c ch_lbracket = false.
Proof.
  destruct c as [[] [] [] [] [] [] [] []]; vm_compute;
    intros H; try discriminate H; repeat split.
Qed.

Lemma lstrip_digits ds : forallb is_digit ds = true -> lstrip ds = ds.
Proof.
  destruct ds as [|c ds]; [reflexivity|]. simpl. intros H.
  apply andb_prop in H as [Hc _]. apply digit_facts in Hc as (-> & _).
  reflexivity.
Qed.

Lemma forallb_rev (p : ascii -> bool) l :
  forallb p l = true -> forallb p (rev l) = true.
Proof.
  rewrite !forallb_forall. intros H x Hx. apply H, in_rev, Hx.
Qed.

Lemma strip_digits ds : forallb is_digit ds = true -> strip ds = ds.
Proof.
  intros H. unfold strip. rewrite (lstrip_digits ds H).
  rewrite (lstrip_digits (rev ds) (forallb_rev _ _ H)). apply rev_involutive.
Qed.

Lemma remove_underscores_digits prev ds :
  match prev with Some p => Ascii.eqb p ch_underscore = false | None => True end ->
  forallb is_digit ds = true ->
  remove_underscores prev ds = Some ds.
Proof.
  revert prev. induction ds as [|c ds IH]; intros prev Hp H.
  - simpl. destruct prev as [p|]; [rewrite Hp|]; reflexivity.
  - simpl in H. apply andb_prop in H as [Hc H].
    destruct (digit_facts c Hc) as (_ & _ & _ & _ & Hu & _).
    simpl. rewrite Hu.
    assert (B : match prev with
                | Some p => Ascii.eqb p ch_underscore && negb (is_digit c)
                | None => false
                end = false)
      by (destruct prev as [p|]; [rewrite Hp|]; reflexivity).
    rewrite B, (IH (Some c) Hu H). reflexivity.
Qed.

(** [int] on a digit run is its decimal value, leading zeros included. *)
Lemma py_int_digit_run ds : digit_run ds -> py_int ds = Ok (Z_of_digits ds).
Proof.
  intros (Hne & H & L). unfold py_int. rewrite (strip_digits ds H).
  destruct ds as [|c ds]; [contradiction|].
  pose proof H as H'. simpl in H'. apply andb_prop in H' as [Hc _].
  destruct (digit_facts c Hc) as (_ & _ & Hm & Hp & _).
  rewrite Hm, Hp, Hc. cbn [negb].
  rewrite (remove_underscores_digits None (c :: ds) I H), H. cbn [negb].
  destruct (Nat.ltb_spec MAX_STR_DIGITS (length (c :: ds))); [lia|reflexivity].
Qed.

Lemma strip_markers_digits ds :
  forallb is_digit ds = true -> strip_markers ds = ds.
Proof.
  induction ds as [|c ds IH]; [reflexivity|]. simpl. intros H.
  apply andb_prop in H as [Hc H].
  destruct (digit_facts c Hc) as (_ & -> & _). simpl. rewrite (IH H).
  reflexivity.
Qed.

Lemma match_file_idx_digit_run ds rest :
  ds <> [] -> forallb is_digit ds = true ->
  match_file_idx (ch_lbracket :: ds ++ ch_rbracket :: rest)
  = Some (ch_lbracket :: ds ++ [ch_rbracket], rest).
Proof.
  intros Hne H. unfold match_file_idx. rewrite Ascii.eqb_refl.
  rewrite (span_app is_digit ds (ch_rbracket :: rest) H eq_refl).
  destruct ds; [contradiction|]. rewrite Ascii.eqb_refl. reflexivity.
Qed.

Lemma transform_file_idx_digit_run ds :
  digit_run ds ->
  _transform_match_file_idx (ch_lbracket :: ds ++ [ch_rbracket])
  = Ok (s2l "F" ++ str_of_Z (Z_of_digits ds - 1)).
Proof.
  intros H. unfold _transform_match_file_idx, slice_1_m1. cbn [tl].
  rewrite removelast_last, (py_int_digit_run H). reflexivity.
Qed.

(** X1.  Left of its first bracketed number, [format_scan_index] only
    strips markers; the bracketed digit run [n] becomes [F] followed by
    [n - 1] (leading zeros dropped, [0] giving [-1]); the text after the
    closing bracket is remapped in the same way. *)
Theorem format_scan_index_first_bracket pre ds rest :
  bracket_free pre -> digit_run ds ->
  format_scan_index (pre ++ ch_lbracket :: ds ++ ch_rbracket :: rest) =
  (t <- format_scan_index rest ;;
   Ok (strip_markers pre ++ s2l "F" ++ str_of_Z (Z_of_digits ds - 1) ++ t)).
Proof.
  intros Hpre Hds. pose proof Hds as (Hne & Hd & _).
  unfold format_scan_index.
  fold (strip_markers (pre ++ ch_lbracket :: ds ++ ch_rbracket :: rest)).
  fold (strip_markers rest).
  assert (E : strip_markers (pre ++ ch_lbracket :: ds ++ ch_rbracket :: rest)
              = strip_markers pre
                ++ ch_lbracket :: ds ++ ch_rbracket :: strip_markers rest).
  { unfold strip_markers at 1. rewrite filter_app. fold (strip_markers pre).
    f_equal. cbn [filter]. change (negb (in_strip_class ch_lbracket)) with true.
    cbn iota. f_equal. rewrite filter_app. fold (strip_markers ds).
    rewrite (strip_markers_digits ds Hd). reflexivity. }
  rewrite E, sub_file_idx_prefix by (apply strip_markers_bracket_free; exact Hpre).
  rewrite (sub_file_idx_hit _ (match_file_idx_digit_run _ Hne Hd)).
  rewrite (transform_file_idx_digit_run Hds). cbn [bind].
  destruct (sub_file_idx (strip_markers rest)); cbn [bind];
    [rewrite <- app_assoc|]; reflexivity.
Qed.

Lemma format_scan_index_first_bracket_witness :
  format_scan_index (s2l "ms_run[007]:index=[12]x_[") = Ok (s2l "F6:F11[").
Proof.
  assert (B : bracket_free (s2l "ms_run")) by (intros H; not_in_literal H).
  assert (D : digit_run (s2l "007")).
  { split; [discriminate|]. split; [reflexivity|]. unfold MAX_STR_DIGITS.
    simpl. lia. }
  pose proof (@format_scan_index_first_bracket
                (s2l "ms_run") (s2l "007") (s2l ":index=[12]x_[") B D) as H.
  vm_compute in H |- *. exact H.
Defined.

(** ** [str(int)] read back by [int] *)

Lemma int_str_uint d : Forall int_char (s2l (NilEmpty.string_of_uint d)).
Proof.
  induction d; simpl; try (constructor; [left; reflexivity | assumption]).
  constructor.
Qed.

Lemma int_str_of_Z n : Forall int_char (str_of_Z n).
Proof.
  assert (Hu : forall d, Forall int_char (s2l (NilZero.string_of_uint d))).
  { intros d. unfold NilZero.string_of_uint.
    destruct d; try apply int_str_uint.
    constructor; [left; reflexivity | constructor]. }
  unfold str_of_Z, NilZero.string_of_int.
  destruct (Z.to_int n) as [d|d]; [apply Hu|].
  change (Forall int_char (ch_minus :: s2l (NilZero.string_of_uint d))).
  constructor; [right; reflexivity | apply Hu].
Qed.

Lemma str_of_Z_nonneg_digits n :
  (0 <= n)%Z -> forallb is_digit (str_of_Z n) = true.
Proof.
  intros Hn.
  assert (Hu : forall d, forallb is_digit (s2l (NilEmpty.string_of_uint d)) = true)
    by (induction d; simpl; auto).
  unfold str_of_Z, NilZero.string_of_int, NilZero.string_of_uint.
  destruct n as [|p|p]; [reflexivity| |lia].
  simpl Z.to_int. destruct (Pos.to_uint p); try apply Hu. reflexivity.
Qed.

Lemma str_of_Z_nonempty n : str_of_Z n <> [].
Proof.
  unfold str_of_Z, NilZero.string_of_int, NilZero.string_of_uint.
  destruct (Z.to_int n) as [d|d]; destruct d; discriminate.
Qed.

Lemma Z_of_digits_acc d acc :
  fold_left (fun a c => 10 * a + digit_val c)%Z
    (s2l (NilEmpty.string_of_uint d)) (Z.pos acc)
  = Z.pos (Pos.of_uint_acc d acc).
Proof.
  revert acc. induction d; intros acc; [reflexivity|..];
    cbn [NilEmpty.string_of_uint s2l list_ascii_of_string fold_left
         Pos.of_uint_acc];
    rewrite <- IHd; f_equal; try reflexivity;
    match goal with
    | |- context [digit_val ?c] =>
        let v := eval vm_compute in (digit_val c) in
        change (digit_val c) with v
    end; lia.
Qed.

Lemma Z_of_digits_uint d :
  Z_of_digits (s2l (NilEmpty.string_of_uint d)) = Z.of_N (Pos.of_uint d).
Proof.
  unfold Z_of_digits. induction d; [reflexivity | exact IHd |..];
    cbn [NilEmpty.string_of_uint s2l list_ascii_of_string fold_left
         Pos.of_uint Z.of_N];
    rewrite <- Z_of_digits_acc; f_equal.
Qed.

(** [int(str(n)) = n] for a natural number [n]. *)
Lemma Z_of_digits_str_of_Z n : (0 <= n)%Z -> Z_of_digits (str_of_Z n) = n.
Proof.
  intros Hn. destruct n as [|p|p]; [reflexivity| |lia].
  unfold str_of_Z, NilZero.string_of_int, NilZero.string_of_uint.
  simpl Z.to_int.
  pose proof (Unsigned.to_uint_nonnil p) as Hnil.
  pose proof (Unsigned.of_to p) as Hof.
  destruct (Pos.to_uint p) eqn:E; try contradiction;
    rewrite Z_of_digits_uint, Hof; reflexivity.
Qed.

Lemma bracket_free_digits ds : forallb is_digit ds = true -> bracket_free ds.
Proof.
  intros H Hin. rewrite forallb_forall in H. apply H in Hin. discriminate.
Qed.

(** X2.  The docstring's [ms_run[i]:index=j -> F[i-1]:j]: for natural
    numbers [i] (printed with at most 4300 digits) and [j], the index
    string built from their decimal forms is remapped to [F], [i - 1], a
    colon and [j]. *)
Theorem format_scan_index_docstring i j :
  (0 <= i)%Z -> (0 <= j)%Z -> length (str_of_Z i) <= MAX_STR_DIGITS ->
  format_scan_index
    (s2l "ms_run[" ++ str_of_Z i ++ s2l "]:index=" ++ str_of_Z j)
  = Ok (s2l "F" ++ str_of_Z (i - 1) ++ s2l ":" ++ str_of_Z j).
Proof.
  intros Hi Hj L.
  assert (D : digit_run (str_of_Z i))
    by (split; [apply str_of_Z_nonempty|];
        split; [apply str_of_Z_nonneg_digits; exact Hi | exact L]).
  assert (B : bracket_free (s2l "ms_run")) by (intros H; not_in_literal H).
  pose proof (@str_of_Z_nonneg_digits j Hj) as Dj.
  change (s2l "ms_run[" ++ str_of_Z i ++ s2l "]:index=" ++ str_of_Z j)
    with (s2l "ms_run" ++ ch_lbracket :: str_of_Z i
            ++ ch_rbracket :: s2l ":index=" ++ str_of_Z j).
  rewrite (@format_scan_index_first_bracket _ _ (s2l ":index=" ++ str_of_Z j) B D).
  rewrite (@Z_of_digits_str_of_Z i Hi).
  unfold format_scan_index. fold (strip_markers (s2l ":index=" ++ str_of_Z j)).
  unfold strip_markers at 1. rewrite filter_app. fold (strip_markers (str_of_Z j)).
  rewrite (@strip_markers_digits _ Dj).
  change (filter (fun c => negb (in_strip_class c)) (s2l ":index=")) with (s2l ":").
  rewrite sub_file_idx_bracket_free.
  - reflexivity.
  - intros [H|H]; [discriminate|]. exact (@bracket_free_digits _ Dj H).
Qed.

Lemma format_scan_index_docstring_witness :
  format_scan_index (s2l "ms_run[12]:index=340") = Ok (s2l "F11:340").
Proof.
  refine (@format_scan_index_docstring 12 340 _ _ _).
  - lia.
  - lia.
  - vm_compute. lia.
Defined.

(** ** What [format_scan_index] leaves behind *)

Lemma match_file_idx_spec s g rest :
  match_file_idx s = Some (g, rest) ->
  exists ds, ds <> [] /\ forallb is_digit ds = true
             /\ g = ch_lbracket :: ds ++ [ch_rbracket]
             /\ s = g ++ rest.
Proof.
  destruct s as [|c s1]; simpl; [discriminate|].
  destruct (Ascii.eqb_spec c ch_lbracket) as [->|]; [|discriminate].
  destruct (span is_digit s1) as [ds r] eqn:E.
  apply span_spec in E as (-> & Hd & _).
  destruct ds as [|d ds]; [discriminate|].
  destruct r as [|c2 r]; [discriminate|].
  destruct (Ascii.eqb_spec c2 ch_rbracket) as [->|]; [|discriminate].
  intros [= <- <-]. exists (d :: ds). repeat split; try assumption.
  - discriminate.
  - simpl. rewrite <- app_assoc. reflexivity.
Qed.

Lemma sub_file_idx_ind_scan (P : str -> result str -> Prop) :
  P [] (Ok []) ->
  (forall s g0 rest, match_file_idx s = Some (g0, rest) ->
     P rest (sub_file_idx rest) ->
     P s (r <- _transform_match_file_idx g0 ;;
          t <- sub_file_idx rest ;; Ok (r ++ t))) ->
  (forall c s, match_file_idx (c :: s) = None ->
     P s (sub_file_idx s) ->
     P (c :: s) (t <- sub_file_idx s ;; Ok (c :: t))) ->
  forall s, P s (sub_file_idx s).
Proof.
  intros Hnil Hhit Hmiss s.
  remember (length s) as n eqn:Hn. revert s Hn.
  induction n as [n IH] using lt_wf_ind. intros s Hn.
  destruct s as [|c s]; [simp sub_file_idx; exact Hnil|].
  destruct (match_file_idx (c :: s)) as [[g0 rest]|] eqn:E.
  - rewrite (sub_file_idx_hit _ E). apply Hhit; [exact E|].
    apply (IH (length rest)); [|reflexivity].
    apply match_file_idx_length in E. lia.
  - rewrite (@sub_file_idx_miss _ _ E). apply Hmiss; [exact E|].
    apply (IH (length s)); [simpl in Hn; lia | reflexivity].
Qed.

Lemma int_char_facts c :
  int_char c -> in_strip_class c = false /\ c <> ch_lbracket.
Proof.
  intros [H| ->]; [|split; [reflexivity|discriminate]].
  destruct (digit_facts c H) as (_ & Hs & _ & _ & _ & Hb).
  split; [exact Hs|]. intros ->. discriminate.
Qed.

(** What the callback returns: [F] and a printed integer. *)
Lemma transform_file_idx_chars g r :
  _transform_match_file_idx g = Ok r ->
  Forall (fun c => in_strip_class c = false /\ c <> ch_lbracket) r
  /\ exists r', r = "F"%char :: r'.
Proof.
  unfold _transform_match_file_idx.
  destruct (py_int (slice_1_m1 g)) as [z|]; [|discriminate].
  intros [= <-]. split; [|eexists; reflexivity].
  constructor; [split; [reflexivity|discriminate]|].
  eapply Forall_impl; [|apply int_str_of_Z]. exact int_char_facts.
Qed.

Lemma scan_index_result_marker_free scan_index t :
  format_scan_index scan_index = Ok t -> marker_free t.
Proof.
  unfold format_scan_index, marker_free.
  assert (H : Forall (fun c => in_strip_class c = false)
                (filter (fun c => negb (in_strip_class c)) scan_index)).
  { apply Forall_forall. intros c Hc. apply filter_In in Hc as [_ Hc].
    destruct (in_strip_class c); [discriminate|reflexivity]. }
  revert H t.
  generalize (filter (fun c => negb (in_strip_class c)) scan_index) as s.
  intros s. pattern s, (sub_file_idx s). apply sub_file_idx_ind_scan.
  - intros _ t [= <-]. constructor.
  - intros s0 g0 rest E IH H t.
    destruct (match_file_idx_spec _ E) as (ds & _ & _ & _ & ->).
    apply Forall_app in H as [_ Hrest].
    destruct (_transform_match_file_idx g0) as [r|] eqn:T; [|discriminate].
    cbn [bind]. destruct (sub_file_idx rest) as [t'|]; [|discriminate].
    cbn [bind]. intros [= <-]. apply Forall_app. split.
    + apply transform_file_idx_chars in T as [T _].
      eapply Forall_impl; [|exact T]. intros c [Hc _]. exact Hc.
    + apply IH; [exact Hrest | reflexivity].
  - intros c s0 _ IH H t. apply Forall_cons_iff in H as [Hc Hs].
    destruct (sub_file_idx s0) as [t'|]; [|discriminate].
    cbn [bind]. intros [= <-]. constructor; [exact Hc|].
    apply IH; [exact Hs | reflexivity].
Qed.

(** X3.  Whatever [format_scan_index] returns holds no lowercase letter,
    no [=] and no [_]: the marker text is gone and the substitution
    brings none back. *)
Theorem format_scan_index_marker_free scan_index t :
  format_scan_index scan_index = Ok t -> marker_free t.
Proof. apply scan_index_result_marker_free. Qed.

Lemma format_scan_index_marker_free_witness :
  marker_free (s2l "F2:7").
Proof.
  apply (@format_scan_index_marker_free (s2l "ms_run[3]:index=7") (s2l "F2:7")).
  vm_compute. reflexivity.
Defined.

Lemma match_file_idx_other c s : c <> ch_lbracket -> match_file_idx (c :: s) = None.
Proof.
  intros H. simpl. destruct (Ascii.eqb_spec c ch_lbracket); [contradiction|].
  reflexivity.
Qed.

Lemma has_file_idx_app r t :
  Forall (fun c => c <> ch_lbracket) r ->
  has_file_idx (r ++ t) = has_file_idx t.
Proof.
  induction 1 as [|c r Hc Hr IH]; [reflexivity|].
  change (has_file_idx ((c :: r) ++ t))
    with (match match_file_idx (c :: r ++ t) with
          | Some _ => true
          | None => has_file_idx (r ++ t)
          end).
  rewrite (match_file_idx_other _ Hc). exact IH.
Qed.

Lemma sub_file_idx_without_match t :
  has_file_idx t = false -> sub_file_idx t = Ok t.
Proof.
  induction t as [|c t IH]; intros H; [simp sub_file_idx; reflexivity|].
  change (match match_file_idx (c :: t) with
          | Some _ => true
          | None => has_file_idx t
          end = false) in H.
  destruct (match_file_idx (c :: t)) eqn:E; [discriminate|].
  rewrite (@sub_file_idx_miss _ _ E), (IH H). reflexivity.
Qed.

(** A prefix of the result without [F] and [[] is a prefix of the
    argument. *)
Lemma sub_file_idx_prefix_reflected p s t x :
  Forall (fun c => c <> "F"%char /\ c <> ch_lbracket) p ->
  sub_file_idx s = Ok t -> strip_prefix p t = Some x ->
  exists y, strip_prefix p s = Some y.
Proof.
  intros Hp. revert s t x. induction Hp as [|a p [HF HB] Hp IH]; intros s t x S P.
  - exists s. reflexivity.
  - destruct s as [|c s].
    + simp sub_file_idx in S. injection S as <-. discriminate.
    + destruct (match_file_idx (c :: s)) as [[g0 rest]|] eqn:E.
      * rewrite (sub_file_idx_hit _ E) in S.
        destruct (_transform_match_file_idx g0) as [r|] eqn:T; [|discriminate].
        apply transform_file_idx_chars in T as [_ [r' ->]].
        cbn [bind] in S. destruct (sub_file_idx rest); [|discriminate].
        injection S as <-. simpl in P.
        destruct (Ascii.eqb_spec a "F"%char); [contradiction|discriminate].
      * rewrite (@sub_file_idx_miss _ _ E) in S.
        destruct (sub_file_idx s) as [t'|] eqn:S'; [|discriminate].
        injection S as <-. simpl in P |- *.
        destruct (Ascii.eqb a c); [|discriminate].
        apply (IH s t' x S' P).
Qed.

Lemma sub_file_idx_leaves_no_match s t :
  sub_file_idx s = Ok t -> has_file_idx t = false.
Proof.
  revert t. pattern s, (sub_file_idx s). apply sub_file_idx_ind_scan.
  - intros t [= <-]. reflexivity.
  - intros s0 g0 rest E IH t.
    destruct (_transform_match_file_idx g0) as [r|] eqn:T; [|discriminate].
    cbn [bind]. destruct (sub_file_idx rest) as [t'|]; [|discriminate].
    intros [= <-]. apply transform_file_idx_chars in T as [T _].
    rewrite has_file_idx_app; [apply IH; reflexivity|].
    eapply Forall_impl; [|exact T]. intros c [_ Hc]. exact Hc.
  - intros c s0 E IH t.
    destruct (sub_file_idx s0) as [t'|] eqn:S; [|discriminate].
    intros [= <-].
    change (match match_file_idx (c :: t') with
            | Some _ => true
            | None => has_file_idx t'
            end = false).
    destruct (match_file_idx (c :: t')) as [[g rest']|] eqn:M;
      [|apply IH; reflexivity].
    exfalso.
    destruct (match_file_idx_spec _ M) as (ds & Hne & Hd & -> & Ht).
    injection Ht as -> Ht.
    assert (P : strip_prefix (ds ++ [ch_rbracket]) t' = Some rest')
      by (apply strip_prefix_spec; exact Ht).
    assert (F : Forall (fun c => c <> "F"%char /\ c <> ch_lbracket)
                  (ds ++ [ch_rbracket])).
    { apply Forall_app. split.
      - apply Forall_forall. intros d Hin. pose proof Hd as Hd'.
        rewrite forallb_forall in Hd'. specialize (Hd' d Hin).
        split; intros ->; discriminate.
      - constructor; [split; discriminate | constructor]. }
    destruct (@sub_file_idx_prefix_reflected _ s0 t' rest' F S P) as [y Hy].
    apply strip_prefix_spec in Hy. subst s0. rewrite <- app_assoc in E.
    cbn [app] in E. rewrite (match_file_idx_digit_run y Hne Hd) in E.
    discriminate.
Qed.

Lemma strip_markers_marker_free t : marker_free t -> strip_markers t = t.
Proof.
  induction 1 as [|c t Hc Ht IH]; [reflexivity|].
  simpl. rewrite Hc. simpl. rewrite IH. reflexivity.
Qed.

(** X4.  [format_scan_index] is idempotent: remapping a remapped index
    returns it unchanged. *)
Theorem format_scan_index_idempotent scan_index t :
  format_scan_index scan_index = Ok t -> format_scan_index t = Ok t.
Proof.
  intros H. pose proof (scan_index_result_marker_free _ H) as M.
  unfold format_scan_index in *. fold (strip_markers t).
  rewrite (strip_markers_marker_free M).
  apply sub_file_idx_without_match.
  apply (sub_file_idx_leaves_no_match _ H).
Qed.

Lemma format_scan_index_idempotent_witness :
  format_scan_index (s2l "[1F133]:7") = Ok (s2l "[1F133]:7").
Proof.
  apply (@format_scan_index_idempotent (s2l "run[1[14]3]:index=7")).
  vm_compute. reflexivity.
Defined.

(** ** Score strings *)

Lemma split_on_sep_app sep a b :
  split_on sep (a ++ sep :: b) = split_on sep a ++ split_on sep b.
Proof.
  induction a as [|c a IH]; simpl.
  - rewrite Ascii.eqb_refl. reflexivity.
  - destruct (Ascii.eqb c sep); [rewrite IH; reflexivity|].
    rewrite IH. destruct (split_on sep a) as [|w ws] eqn:E; [|reflexivity].
    destruct a as [|c' a]; simpl in E; [discriminate|].
    destruct (Ascii.eqb c' sep); [discriminate|].
    destruct (split_on sep a); discriminate.
Qed.

Lemma split_on_length sep s :
  length (split_on sep s) = S (count_occ ascii_dec s sep).
Proof.
  induction s as [|c s IH]; [reflexivity|]. simpl.
  destruct (Ascii.eqb_spec c sep) as [->|Hne].
  - destruct (ascii_dec sep sep); [|contradiction]. simpl. rewrite IH.
    reflexivity.
  - destruct (ascii_dec c sep); [contradiction|]. rewrite <- IH.
    destruct (split_on sep s); [discriminate IH | reflexivity].
Qed.

Lemma mapM_raise_intro {A B : Type} (f : A -> result B) l a e :
  In a l -> f a = Raise e -> exists e', mapM f l = Raise e'.
Proof.
  induction l as [|b l IH]; intros Hin Ha; [contradiction|].
  simpl. destruct (f b) eqn:Fb; [|eexists; reflexivity]. cbn [bind].
  destruct Hin as [->|Hin]; [congruence|].
  destruct (IH Hin Ha) as [e' ->]. eexists. reflexivity.
Qed.

(** X5.  [_format_scores] of a non-empty list yields one comma-separated
    field per score, each the printed form of its score: a printed float
    holds no comma. *)
Theorem format_scores_fields scores :
  scores <> [] ->
  split_on ch_comma (_format_scores scores) = map PyFloat.to_str scores.
Proof.
  intros Hne. unfold _format_scores. apply split_join.
  - destruct scores; [contradiction|discriminate].
  - apply Forall_forall. intros w Hw. apply in_map_iff in Hw as (x & <- & _).
    apply number_str_comma_free, number_str_to_str.
Qed.

Lemma format_scores_fields_witness :
  split_on ch_comma
    (_format_scores [PyFloat.of_Z 2; SpecFloat.S754_nan; SpecFloat.S754_infinity true])
  = [s2l "2.0"; s2l "nan"; s2l "-inf"].
Proof.
  refine (@format_scores_fields
            [PyFloat.of_Z 2; SpecFloat.S754_nan; SpecFloat.S754_infinity true] _).
  discriminate.
Defined.

(** X6.  [_parse_scores] fails exactly when one of the comma-separated
    fields is not a float literal, and the exception is then always
    [ValueError]. *)
Theorem parse_scores_fails_iff_bad_field scores :
  (_parse_scores scores = Raise ValueError <->
   exists field, In field (split_on ch_comma scores)
                 /\ PyFloat.of_str field = Raise ValueError)
  /\ (forall e, _parse_scores scores = Raise e -> e = ValueError).
Proof.
  split; [split|].
  - intros H. apply mapM_raise in H. exact H.
  - intros (field & Hin & Hf).
    destruct (mapM_raise_intro PyFloat.of_str _ _ Hin Hf) as [e' He'].
    pose proof (parse_scores_raises _ He') as ->. exact He'.
  - apply parse_scores_raises.
Qed.

(** X7.  A score string that parses yields one score per field: as many
    scores as the string has commas, plus one; the list is never empty. *)
Theorem parse_scores_count scores parsed :
  _parse_scores scores = Ok parsed ->
  length parsed = S (count_occ ascii_dec scores ch_comma).
Proof.
  intros H. rewrite (parse_scores_length _ H). apply split_on_length.
Qed.

Lemma parse_scores_count_witness :
  exists parsed, _parse_scores (s2l "1e3,.5,-inf, 7 ") = Ok parsed
                 /\ length parsed = 4.
Proof.
  eexists. split; [vm_compute; reflexivity|].
  apply (@parse_scores_count (s2l "1e3,.5,-inf, 7 ")). vm_compute. reflexivity.
Defined.

Lemma empty_field_raises scores :
  In [] (split_on ch_comma scores) -> _parse_scores scores = Raise ValueError.
Proof.
  intros Hin.
  destruct (mapM_raise_intro PyFloat.of_str _ [] Hin eq_refl) as [e' He'].
  pose proof (parse_scores_raises _ He') as ->. exact He'.
Qed.

(** X8.  A score string with an empty field raises [ValueError]: the
    empty string, a leading comma, a trailing comma, two adjacent
    commas. *)
Theorem parse_scores_empty_field scores :
  scores = []
  \/ (exists b, scores = ch_comma :: b)
  \/ (exists a, scores = a ++ [ch_comma])
  \/ (exists a b, scores = a ++ ch_comma :: ch_comma :: b) ->
  _parse_scores scores = Raise ValueError.
Proof.
  intros H. apply empty_field_raises.
  destruct H as [->|[[b ->]|[[a ->]|(a & b & ->)]]].
  - left. reflexivity.
  - left. reflexivity.
  - rewrite split_on_sep_app. apply in_or_app. right. left. reflexivity.
  - rewrite split_on_sep_app. apply in_or_app. right. left. reflexivity.
Qed.

Lemma parse_scores_empty_field_witness :
  _parse_scores (s2l "0.5,,1.0") = Raise ValueError.
Proof.
  apply (@parse_scores_empty_field (s2l "0.5,,1.0")).
  right. right. right. exists (s2l "0.5"), (s2l "1.0"). reflexivity.
Defined.

(** ** More on [format_sequence_and_scores] *)

(** The fixed substitution keeps the residues and their order. *)
Lemma residues_after_replacements s :
  filter is_upper (apply_replacements s) = filter is_upper s.
Proof.
  rewrite apply_replacements_eq.
  pattern s, (replace (residue_C :: mass_marker) [residue_C] s).
  apply replace_scan_ind.
  - discriminate.
  - reflexivity.
  - intros s0 rest E IH. apply strip_prefix_spec in E. subst s0.
    rewrite !filter_app, IH. reflexivity.
  - intros c s0 _ IH. simpl. rewrite IH. reflexivity.
Qed.

Lemma filter_upper_ptm m :
  forallb in_ptm_class m = true -> filter is_upper m = [].
Proof.
  induction m as [|c m IH]; [reflexivity|]. simpl. intros H.
  apply andb_prop in H as [Hc H]. rewrite (ptm_not_upper c Hc). exact (IH H).
Qed.

Lemma search_n_term_starts_upper c s : is_upper c = true -> search_n_term (c :: s) = None.
Proof.
  intros H. unfold search_n_term. simpl. rewrite (upper_not_ptm c H).
  reflexivity.
Qed.

(** The shape of every successful result. *)
Lemma align_result sequence aa_scores sequence' aa_scores' :
  format_sequence_and_scores sequence aa_scores = Ok (sequence', aa_scores') ->
  (search_n_term (apply_replacements sequence) = None
   /\ sequence' = apply_replacements sequence /\ aa_scores' = aa_scores)
  \/ (exists m, search_n_term (apply_replacements sequence) = Some m
                /\ sequence' = group2 m :: group1 m ++ after_match m).
Proof.
  destruct (search_n_term (apply_replacements sequence)) as [m|] eqn:E.
  - intros H. right. exists m. split; [reflexivity|].
    destruct (_parse_scores aa_scores) as [scores|e] eqn:P.
    + destruct scores as [|x0 [|x1 rest]].
      * rewrite (align_short _ _ E P) in H by (simpl; lia). discriminate.
      * rewrite (align_short _ _ E P) in H by (simpl; lia). discriminate.
      * rewrite (align_merge _ _ E P) in H. congruence.
    + rewrite (align_parse_error _ _ E P) in H. discriminate.
  - rewrite (align_pass _ _ E). intros [= <- <-]. left. auto.
Qed.

Lemma align_raises sequence aa_scores e :
  format_sequence_and_scores sequence aa_scores = Raise e ->
  (e = ValueError \/ e = IndexError) /\ search_n_term sequence <> None.
Proof.
  intros H.
  destruct (search_n_term sequence) as [m|] eqn:E.
  - split; [|discriminate]. apply search_after_replacements_some in E.
    destruct (_parse_scores aa_scores) as [scores|e'] eqn:P.
    + destruct scores as [|x0 [|x1 rest]].
      * rewrite (align_short _ _ E P) in H by (simpl; lia). right. congruence.
      * rewrite (align_short _ _ E P) in H by (simpl; lia). right. congruence.
      * rewrite (align_merge _ _ E P) in H. discriminate.
    + rewrite (align_parse_error _ _ E P) in H.
      pose proof (parse_scores_raises _ P). left. congruence.
  - apply search_after_replacements_none in E.
    rewrite (align_pass _ _ E) in H. discriminate.
Qed.

(** X9.  [format_sequence_and_scores] raises nothing but [ValueError] and
    [IndexError], and only for a sequence that begins with an N-terminal
    modification marker; every other sequence gets a result. *)
Theorem align_exceptions sequence aa_scores e :
  format_sequence_and_scores sequence aa_scores = Raise e ->
  (e = ValueError \/ e = IndexError) /\ search_n_term sequence <> None.
Proof. apply align_raises. Qed.

Lemma align_exceptions_witness :
  (IndexError = ValueError \/ IndexError = IndexError)
  /\ search_n_term (s2l "-17.027QK") <> None.
Proof.
  apply (@align_exceptions (s2l "-17.027QK") (s2l "0.5") IndexError).
  vm_compute. reflexivity.
Defined.

(** X10.  The sequence that [format_sequence_and_scores] returns never
    begins with an N-terminal modification marker, so a second call on
    its own result merges no scores: the score string passes through. *)
Theorem align_result_has_no_n_terminal_marker
    sequence aa_scores sequence' aa_scores' :
  format_sequence_and_scores sequence aa_scores = Ok (sequence', aa_scores') ->
  search_n_term sequence' = None
  /\ format_sequence_and_scores sequence' aa_scores'
     = Ok (apply_replacements sequence', aa_scores').
Proof.
  intros H.
  assert (N : search_n_term sequence' = None).
  { apply align_result in H as [(E & -> & _)|(m & E & ->)]; [exact E|].
    apply search_n_term_elim in E as (_ & _ & _ & U).
    apply search_n_term_starts_upper. exact U. }
  split; [exact N|].
  apply align_pass, search_after_replacements_none, N.
Qed.

Lemma align_result_has_no_n_terminal_marker_witness :
  search_n_term (s2l "Q-17.027C+57.021K") = None
  /\ format_sequence_and_scores (s2l "Q-17.027C+57.021K") (s2l "0.75,1.0,0.5")
     = Ok (apply_replacements (s2l "Q-17.027C+57.021K"), s2l "0.75,1.0,0.5").
Proof.
  apply (@align_result_has_no_n_terminal_marker
           (s2l "-17.027QC+57.021+57.021K") (s2l "0.5,1.0,1.0,0.5")).
  vm_compute. reflexivity.
Defined.

(** X11.  [format_sequence_and_scores] keeps the residues: the uppercase
    letters of the returned sequence are those of the input, in the same
    order. *)
Theorem align_keeps_residues sequence aa_scores sequence' aa_scores' :
  format_sequence_and_scores sequence aa_scores = Ok (sequence', aa_scores') ->
  filter is_upper sequence' = filter is_upper sequence.
Proof.
  intros H. rewrite <- (residues_after_replacements sequence).
  apply align_result in H as [(_ & -> & _)|(m & E & ->)]; [reflexivity|].
  apply search_n_term_elim in E as (-> & _ & P & U).
  simpl. rewrite U, !filter_app. simpl. rewrite U, (filter_upper_ptm _ P).
  reflexivity.
Qed.

Lemma align_keeps_residues_witness :
  filter is_upper (s2l "G+42.011CK+15.995") = filter is_upper (s2l "+42.011GC+57.021K+15.995").
Proof.
  apply (@align_keeps_residues (s2l "+42.011GC+57.021K+15.995") (s2l "1,2,3,4")
           (s2l "G+42.011CK+15.995") (s2l "1.5,3.0,4.0")).
  vm_compute. reflexivity.
Defined.

(** ** More on [format_output] *)

Lemma get_set_column_same name cells df :
  get_column name (set_column name cells df) = Ok cells.
Proof.
  induction df as [|[n old] df IH]; simpl.
  - rewrite String.eqb_refl. reflexivity.
  - destruct (String.eqb n name) eqn:E; simpl; rewrite E; [reflexivity|exact IH].
Qed.

Lemma get_set_column_other name name' cells df :
  name' <> name ->
  get_column name' (set_column name cells df) = get_column name' df.
Proof.
  intros Hne. induction df as [|[n old] df IH]; simpl.
  - destruct (String.eqb_spec name name'); [congruence|reflexivity].
  - destruct (String.eqb_spec n name) as [->|]; simpl.
    + destruct (String.eqb_spec name name'); [congruence|reflexivity].
    + destruct (String.eqb n name'); [reflexivity|exact IH].
Qed.

Lemma set_column_names name cells cells0 df :
  get_column name df = Ok cells0 ->
  map fst (set_column name cells df) = map fst df.
Proof.
  induction df as [|[n old] df IH]; simpl; [discriminate|].
  destruct (String.eqb n name); simpl; [reflexivity|].
  intros H. rewrite (IH H). reflexivity.
Qed.

(** X12.  With a score column, one row on which
    [format_sequence_and_scores] raises makes [format_output] raise, with
    [ValueError] or [IndexError]: no table is returned for the other
    rows. *)
Theorem format_output_row_failure output_data sequences scores sequence aa_scores e :
  has_column "aa_scores" output_data = true ->
  get_column "sequence" output_data = Ok sequences ->
  get_column "aa_scores" output_data = Ok scores ->
  In (sequence, aa_scores) (combine sequences scores) ->
  format_sequence_and_scores sequence aa_scores = Raise e ->
  exists e', format_output output_data = Raise e'
             /\ (e' = ValueError \/ e' = IndexError).
Proof.
  intros Hc Hs Ha Hin Hr. unfold format_output. rewrite Hc, Hs, Ha. cbn [bind].
  destruct (mapM_raise_intro
              (fun row => format_sequence_and_scores (fst row) (snd row))
              _ (sequence, aa_scores) Hin Hr) as [e' He'].
  rewrite He'. cbn [bind]. exists e'. split; [reflexivity|].
  apply mapM_raise in He' as ([s a] & _ & H).
  apply align_raises in H. tauto.
Qed.

Lemma format_output_row_failure_witness :
  exists e', format_output
               [ ("sequence"%string, [s2l "PEPTIDE"; s2l "+42.011GK"]);
                 ("aa_scores"%string, [s2l "1,1,1,1,1,1,1"; s2l "0.5"]);
                 ("scan_indices"%string, [s2l "ms_run[1]:index=0";
                                          s2l "ms_run[1]:index=1"]) ]
             = Raise e'
             /\ (e' = ValueError \/ e' = IndexError).
Proof.
  eapply (@format_output_row_failure _ _ _ (s2l "+42.011GK") (s2l "0.5")).
  - reflexivity.
  - reflexivity.
  - reflexivity.
  - right. left. reflexivity.
  - vm_compute. reflexivity.
Defined.

(** X13.  With a score column, a successful [format_output] keeps the
    column names and their order, leaves every column other than
    [sequence], [aa_scores] and [scan_indices] untouched, and fills those
    three with the row-by-row results of [format_sequence_and_scores] and
    [format_scan_index]. *)
Theorem format_output_frame output_data output_data' :
  has_column "aa_scores" output_data = true ->
  format_output output_data = Ok output_data' ->
  map fst output_data' = map fst output_data
  /\ (forall name,
        name <> "sequence"%string -> name <> "aa_scores"%string ->
        name <> "scan_indices"%string ->
        get_column name output_data' = get_column name output_data)
  /\ exists sequences scores scan_indices rows scan_indices',
       get_column "sequence" output_data = Ok sequences
       /\ get_column "aa_scores" output_data = Ok scores
       /\ get_column "scan_indices" output_data = Ok scan_indices
       /\ mapM (fun row => format_sequence_and_scores (fst row) (snd row))
            (combine sequences scores) = Ok rows
       /\ mapM format_scan_index scan_indices = Ok scan_indices'
       /\ get_column "sequence" output_data' = Ok (map fst rows)
       /\ get_column "aa_scores" output_data' = Ok (map snd rows)
       /\ get_column "scan_indices" output_data' = Ok scan_indices'.
Proof.
  intros Hc. unfold format_output. rewrite Hc.
  destruct (get_column "sequence" output_data) as [sequences|] eqn:Hs;
    [|discriminate]. cbn [bind].
  destruct (get_column "aa_scores" output_data) as [scores|] eqn:Ha;
    [|discriminate]. cbn [bind].
  destruct (mapM _ (combine sequences scores)) as [rows|] eqn:Hr;
    [|discriminate]. cbn [bind].
  set (df1 := set_column "sequence" (map fst rows) output_data).
  set (df2 := set_column "aa_scores" (map snd rows) df1).
  assert (Ha1 : get_column "aa_scores" df1 = Ok scores)
    by (unfold df1; rewrite get_set_column_other by discriminate; exact Ha).
  destruct (get_column "scan_indices" df2) as [scan_indices|] eqn:Hi;
    [|discriminate]. cbn [bind].
  destruct (mapM format_scan_index scan_indices) as [scan_indices'|] eqn:Hm;
    [|discriminate]. cbn [bind].
  intros [= <-].
  assert (Hi0 : get_column "scan_indices" output_data = Ok scan_indices).
  { unfold df2, df1 in Hi.
    rewrite !get_set_column_other in Hi by discriminate. exact Hi. }
  split; [|split].
  - rewrite (@set_column_names _ _ _ _ Hi). unfold df2.
    rewrite (@set_column_names _ _ _ _ Ha1). unfold df1.
    apply (@set_column_names _ _ _ _ Hs).
  - intros name N1 N2 N3. unfold df2, df1.
    rewrite !get_set_column_other by assumption. reflexivity.
  - exists sequences, scores, scan_indices, rows, scan_indices'.
    repeat split; try assumption.
    + unfold df2, df1. rewrite !get_set_column_other by discriminate.
      apply get_set_column_same.
    + unfold df2. rewrite get_set_column_other by discriminate.
      apply get_set_column_same.
    + apply get_set_column_same.
Qed.

Lemma format_output_frame_witness :
  exists output_data',
    format_output
      [ ("sequence"%string, [s2l "+42.011GK"]);
        ("score"%string, [s2l "0.9"]);
        ("aa_scores"%string, [s2l "1,.5,1"]);
        ("scan_indices"%string, [s2l "ms_run[1]:index=0"]) ]
    = Ok output_data'
    /\ map fst output_data'
       = ["sequence"; "score"; "aa_scores"; "scan_indices"]%string
    /\ get_column "score" output_data' = Ok [s2l "0.9"].
Proof.
  eexists. split; [vm_compute; reflexivity|].
  destruct (@format_output_frame
              [ ("sequence"%string, [s2l "+42.011GK"]);
                ("score"%string, [s2l "0.9"]);
                ("aa_scores"%string, [s2l "1,.5,1"]);
                ("scan_indices"%string, [s2l "ms_run[1]:index=0"]) ]
              _ eq_refl ltac:(vm_compute; reflexivity)) as (N & F & _).
  split; [exact N|]. apply F; discriminate.
Defined.

(** ** The relocation in general, and the totality of the remapping *)

(** X14.  The N-terminal relocation: for a sequence made of a marker
    [ptm] (a non-empty run of digits, [.], [+], [-]), a residue [aa] and a
    remainder, with scores that parse to at least two numbers, the result
    is the residue, then the marker, then the substituted remainder; the
    first two scores are replaced by their mean and the others are kept
    in order. *)
Theorem n_terminal_relocation ptm aa rest aa_scores x0 x1 scores :
  ptm <> [] -> forallb in_ptm_class ptm = true -> is_upper aa = true ->
  _parse_scores aa_scores = Ok (x0 :: x1 :: scores) ->
  exists rest',
    apply_replacements (aa :: rest) = aa :: rest'
    /\ format_sequence_and_scores (ptm ++ aa :: rest) aa_scores
       = Ok (aa :: ptm ++ rest', _format_scores (mean2 x0 x1 :: scores)).
Proof.
  intros Hne C U P.
  pose proof (@search_n_term_intro ptm aa rest Hne C U) as S.
  apply search_after_replacements_some in S. cbn [group1 group2 after_match] in S.
  exists (tl (apply_replacements (aa :: rest))). split.
  - pose proof (keep_hd_error residue_C mass_marker (aa :: rest)) as H.
    rewrite apply_replacements_eq.
    destruct (replace (residue_C :: mass_marker) [residue_C] (aa :: rest));
      [discriminate|]. injection H as ->. reflexivity.
  - rewrite (align_merge _ _ S P). reflexivity.
Qed.

Lemma n_terminal_relocation_witness :
  format_sequence_and_scores (s2l "+43.006-17.027C+57.021PK") (s2l "0.25,0.5,1,1")
  = Ok (s2l "C+43.006-17.027PK", s2l "0.375,1.0,1.0").
Proof.
  epose proof (@n_terminal_relocation
                 (s2l "+43.006-17.027") "C"%char (s2l "+57.021PK")
                 (s2l "0.25,0.5,1,1") _ _ _
                 ltac:(discriminate) eq_refl eq_refl
                 ltac:(vm_compute; reflexivity))
    as (rest' & H1 & H2).
  vm_compute in H1. injection H1 as <-.
  vm_compute in H2 |- *. exact H2.
Defined.

Lemma sub_file_idx_total s :
  length s <= MAX_STR_DIGITS -> exists t, sub_file_idx s = Ok t.
Proof.
  pattern s, (sub_file_idx s). apply sub_file_idx_ind_scan.
  - intros _. eexists. reflexivity.
  - intros s0 g0 rest E IH L.
    destruct (match_file_idx_spec _ E) as (ds & Hne & Hd & -> & ->).
    assert (D : digit_run ds).
    { split; [exact Hne|]. split; [exact Hd|].
      simpl in L. rewrite !length_app in L. simpl in L. lia. }
    rewrite (transform_file_idx_digit_run D). cbn [bind].
    destruct IH as [t ->].
    + simpl in L. rewrite !length_app in L. lia.
    + eexists. reflexivity.
  - intros c s0 _ IH L. destruct IH as [t ->]; [simpl in L; lia|].
    eexists. reflexivity.
Qed.

(** X15.  On an index string of at most 4300 characters
    [format_scan_index] always returns a string: a missing, empty or
    unclosed bracket is not reported, the text is passed on. *)
Theorem format_scan_index_returns scan_index :
  length scan_index <= MAX_STR_DIGITS ->
  exists t, format_scan_index scan_index = Ok t.
Proof.
  intros L. unfold format_scan_index. apply sub_file_idx_total.
  pose proof (filter_length_le (fun c => negb (in_strip_class c)) scan_index).
  lia.
Qed.

Lemma format_scan_index_returns_witness :
  exists t, format_scan_index (s2l "ms_run[]:index=[7") = Ok t.
Proof.
  apply (@format_scan_index_returns (s2l "ms_run[]:index=[7")).
  unfold MAX_STR_DIGITS. simpl. lia.
Defined.
